(** * The poll/sync engine of the dataplicity agent ([dataplicity/client.py])

    A shallow embedding of [Client]: the constructor, the run loop, the disk
    poll, the sync cycle with its metadata one-shot, and the m2m identity
    announcement.  Python's mutable instance is a record threaded through a
    state monad; exceptions are an explicit result; logging, batch scopes,
    network requests and the close hook are recorded as a list of events. *)

From stdpp Require Import gmap strings list pretty.

Local Open Scope string_scope.
Local Open Scope Z_scope.
Local Open Scope list_scope.

(** ** Python values, exceptions, events *)

(** The few Python values the engine handles: [None], booleans, integers and
    strings. *)
Inductive value :=
| VNone
| VBool (b : bool)
| VInt (n : Z)
| VStr (s : string).

(** Python truthiness, as used by [not x] and [x or y]. *)
Definition truthy (v : value) : bool :=
  match v with
  | VNone => false
  | VBool b => b
  | VInt n => negb (Z.eqb n 0)
  | VStr s => negb (String.eqb s EmptyString)
  end.

(** [x or y] on values. *)
Definition py_or (x y : value) : value := if truthy x then x else y.

(** A [str]-or-[None] argument seen as a value. *)
Definition of_opt_str (o : option string) : value :=
  match o with Some s => VStr s | None => VNone end.

(** Exceptions.  [SystemExit] and [KeyboardInterrupt] derive from
    [BaseException] only; every other constructor is an [Exception]. *)
Inductive exn :=
| SystemExit
| KeyboardInterrupt
| JSONRPCError (rpc_method : string) (code : Z) (message : string)
| ServerUnreachableError (message : string)
| NotSentError
| DuplicateNameError (name : string)
| UnknownResultError (name : string)
| AttributeError (name : string)
| KeyError (key : string)
| IOError (message : string)
| OtherError (message : string).

(** [isinstance(e, Exception)]: what [except Exception] catches. *)
Definition is_Exception (e : exn) : bool :=
  match e with
  | SystemExit | KeyboardInterrupt => false
  | _ => true
  end.

Inductive result (A : Type) :=
| Ok (a : A)
| Raise (e : exn).
Arguments Ok {A} a.
Arguments Raise {A} e.

Inductive level := DEBUG | INFO | WARNING | ERROR.

Inductive logarg :=
| LVal (v : value)
| LExn (e : exn).

(** One named remote call queued in a batch: [call_with_id(call_id, method,
    **params)]. *)
Record call := {
  call_id : string;
  method : string;
  params : list (string * value)
}.

(** What the engine does to the outside world, in order. *)
Inductive event :=
| EvLog (lvl : level) (fmt : string) (args : list logarg)
| EvBatchOpen                       (* [self.remote.batch()] entered *)
| EvRequest (sent_calls : list call) (* one network round trip *)
| EvClose.                          (* [self.close()] *)

(** ** State, exception and output monad *)

Definition M (S A : Type) : Type := S → result A * S * list event.

Definition ret {S A} (a : A) : M S A := λ s, (Ok a, s, []).

Definition bind {S A B} (m : M S A) (k : A → M S B) : M S B :=
  λ s, match m s with
       | (Ok a, s1, ev1) => let '(r, s2, ev2) := k a s1 in (r, s2, ev1 ++ ev2)
       | (Raise e, s1, ev1) => (Raise e, s1, ev1)
       end.

Notation "x <- m ;; k" := (bind m (λ x, k))
  (at level 20, m at level 99, k at level 200, only parsing).
Notation "' pat <- m ;; k" := (bind m (λ x, match x with pat => k end))
  (at level 20, pat pattern, m at level 99, k at level 200, only parsing).
Notation "m ;; k" := (bind m (λ _, k))
  (at level 100, k at level 200, right associativity, only parsing).

Definition raise {S A} (e : exn) : M S A := λ s, (Raise e, s, []).
Definition emit {S} (ev : event) : M S unit := λ s, (Ok tt, s, [ev]).
Definition gets {S A} (f : S → A) : M S A := λ s, (Ok (f s), s, []).
Definition modify {S} (f : S → S) : M S unit := λ s, (Ok tt, f s, []).
Definition lift {S A} (r : result A) : M S A := λ s, (r, s, []).

(** [try: m  except: h] where the handler decides by itself which exceptions
    it re-raises. *)
Definition try_except {S A} (m : M S A) (h : exn → M S A) : M S A :=
  λ s, match m s with
       | (Raise e, s1, ev1) => let '(r, s2, ev2) := h e s1 in (r, s2, ev1 ++ ev2)
       | done => done
       end.

(** [try: m  except: h  else: k]: exceptions of [k] are not handled by [h]. *)
Definition try_except_else {S A B} (m : M S A) (h : exn → M S B)
    (k : A → M S B) : M S B :=
  λ s, match m s with
       | (Ok a, s1, ev1) => let '(r, s2, ev2) := k a s1 in (r, s2, ev1 ++ ev2)
       | (Raise e, s1, ev1) => let '(r, s2, ev2) := h e s1 in (r, s2, ev1 ++ ev2)
       end.

(** [try: m  finally: f]: [f] always runs; an exception of [f] replaces the
    outcome of [m]. *)
Definition try_finally {S A} (m : M S A) (f : M S unit) : M S A :=
  λ s, let '(r, s1, ev1) := m s in
       match f s1 with
       | (Ok _, s2, ev2) => (r, s2, ev1 ++ ev2)
       | (Raise e, s2, ev2) => (Raise e, s2, ev1 ++ ev2)
       end.

(** [for x in xs: f x]. *)
Fixpoint for_each {S A} (f : A → M S unit) (xs : list A) : M S unit :=
  match xs with
  | [] => ret tt
  | x :: xs' => f x ;; for_each f xs'
  end.

Definition outcome {S A} (x : result A * S * list event) : result A := x.1.1.
Definition final {S A} (x : result A * S * list event) : S := x.1.2.
Definition events {S A} (x : result A * S * list event) : list event := x.2.

(** The [logging] calls of the module-level [log]. *)
Definition log_debug {S} fmt args : M S unit := emit (EvLog DEBUG fmt args).
Definition log_info {S} fmt args : M S unit := emit (EvLog INFO fmt args).
Definition log_warning {S} fmt args : M S unit := emit (EvLog WARNING fmt args).
Definition log_error {S} fmt args : M S unit := emit (EvLog ERROR fmt args).
(** [log.exception] logs at error severity, with the active exception. *)
Definition log_exception {S} fmt (e : exn) : M S unit :=
  emit (EvLog ERROR fmt [LExn e]).

(** ** The batched-call protocol ([jsonrpc.Batch]) *)

(** Modelled from the spec: what a call slot of [jsonrpc] holds after the
    send, a value, a fault of that remote method, or the transport-level error
    that failed the whole batch. *)
Inductive fault :=
| RemoteFault (rpc_method : string) (code : Z) (message : string)
| TransportFault (message : string).

Definition fault_exn (f : fault) : exn :=
  match f with
  | RemoteFault m c msg => JSONRPCError m c msg
  | TransportFault msg => ServerUnreachableError msg
  end.

Inductive slot :=
| SlotOk (v : value)
| SlotFault (f : fault).

(** Modelled from the spec: the reaction of the [jsonrpc] transport to one
    request.  The dispatch itself raises, or every call slot is populated. *)
Inductive response :=
| SendRaises (e : exn)
| Replied (res : gmap string slot).

Definition transport := list call → response.

(** Modelled from the spec: the Batch object of [jsonrpc], which is not among
    the sources.  An ordered sequence of calls, an abandoned flag, a sent flag
    set only after a successful dispatch, and the result slots. *)
Record Batch := {
  calls : list call;
  abandoned : bool;
  sent : bool;
  results : gmap string slot
}.

Definition new_batch : Batch :=
  {| calls := []; abandoned := false; sent := false; results := ∅ |}.

(** Modelled from the spec: [addCall] appends a call and fails with a
    duplicate-name error if the result name is already in the batch. *)
Definition call_with_id (name meth : string) (kw : list (string * value))
    (b : Batch) : result Batch :=
  if existsb (λ c, String.eqb (call_id c) name) (calls b)
  then Raise (DuplicateNameError name)
  else Ok {| calls := calls b ++ [{| call_id := name; method := meth; params := kw |}];
             abandoned := abandoned b; sent := sent b; results := results b |}.

(** Modelled from the spec: [abandon] marks the batch as not-to-be-sent;
    idempotent. *)
Definition abandon (b : Batch) : Batch :=
  {| calls := calls b; abandoned := true; sent := sent b; results := results b |}.

(** Modelled from the spec: [getResult] fails when the batch was never sent
    (or was abandoned), fails for a name never added, raises the fault a slot
    holds, and otherwise returns the value. *)
Definition get_result (name : string) (b : Batch) : result value :=
  if negb (sent b) then Raise NotSentError
  else match results b !! name with
       | None => Raise (UnknownResultError name)
       | Some (SlotFault f) => Raise (fault_exn f)
       | Some (SlotOk v) => Ok v
       end.

(** Modelled from the spec: [check] verifies that every named slot resolved
    without fault and raises the first fault it meets. *)
Fixpoint check (names : list string) (b : Batch) : result unit :=
  match names with
  | [] => Ok tt
  | n :: rest =>
      match get_result n b with
      | Ok _ => check rest b
      | Raise e => Raise e
      end
  end.

(** Modelled from the spec: normal exit of the batch scope.  The batch is sent
    as one request unless it was abandoned; [sent] is set after a successful
    dispatch. *)
Definition batch_exit {S} (tr : transport) (b : Batch) : M S Batch :=
  if abandoned b then ret b
  else
    emit (EvRequest (calls b)) ;;
    match tr (calls b) with
    | SendRaises e => raise e
    | Replied res =>
        ret {| calls := calls b; abandoned := abandoned b; sent := true;
               results := res |}
    end.

(** Modelled from the spec: the scope [with self.remote.batch() as batch:
    body] of [jsonrpc].  An exception raised by the body leaves the scope
    without sending and propagates.  The value is the batch as it is after the
    scope, which the code keeps using. *)
Definition with_batch {S} (tr : transport) (body : Batch → M S Batch)
    : M S Batch :=
  emit EvBatchOpen ;;
  b <- body new_batch ;;
  batch_exit tr b.

(** ** Time *)

(** [time.time()] is a float; the engine only adds to it, subtracts, compares
    and formats.  The operations are kept abstract so that nothing below
    depends on how the arithmetic rounds. *)
Class Timestamp (T : Type) := {
  t_of_Z : Z → T;          (* the float of a Python int *)
  t_add : T → T → T;
  t_sub : T → T → T;
  t_geb : T → T → bool;    (* [a >= b] *)
  t_show : T → string      (* [%.02f] formatting *)
}.

(** Exact arithmetic on integers, used to run the model on examples. *)
#[export] Instance Z_timestamp : Timestamp Z := {|
  t_of_Z := id;
  t_add := Z.add;
  t_sub := Z.sub;
  t_geb := Z.geb;
  t_show := pretty
|}.

Section Engine.
Context {T : Type} {TS : Timestamp T}.

(** ** The client instance *)

(** The attributes bound by [__init__] and [_init] (lines 27-59) that the
    engine reads afterwards.  [other_attrs] is the rest of the instance
    dictionary: attributes that something else bound on the object. *)
Record client := {
  conf_path : string;
  rpc_url : string;
  _sent_meta : bool;
  serial : string;
  auth_token : option string;
  poll_rate_seconds : T;
  disk_poll_rate_seconds : Z;
  next_disk_poll_time : T;
  other_attrs : gmap string value
}.

Definition set_sent_meta (v : bool) (c : client) : client :=
  {| conf_path := conf_path c; rpc_url := rpc_url c; _sent_meta := v;
     serial := serial c; auth_token := auth_token c;
     poll_rate_seconds := poll_rate_seconds c;
     disk_poll_rate_seconds := disk_poll_rate_seconds c;
     next_disk_poll_time := next_disk_poll_time c;
     other_attrs := other_attrs c |}.

Definition set_next_disk_poll_time (t : T) (c : client) : client :=
  {| conf_path := conf_path c; rpc_url := rpc_url c;
     _sent_meta := _sent_meta c;
     serial := serial c; auth_token := auth_token c;
     poll_rate_seconds := poll_rate_seconds c;
     disk_poll_rate_seconds := disk_poll_rate_seconds c;
     next_disk_poll_time := t;
     other_attrs := other_attrs c |}.

(** [self.name] for a name outside the record: found in the instance
    dictionary or [AttributeError] (the class body defines methods only). *)
Definition self_attr (name : string) : M client value :=
  attrs <- gets other_attrs ;;
  match attrs !! name with
  | Some v => ret v
  | None => raise (AttributeError name)
  end.

(** ** Construction: [__init__] and [_init] (lines 26-63) *)

(** What [settings.read] found, with the [device] values already resolved by
    [tools.resolve_value]. *)
Record settings := {
  server_url : option string;
  device_serial : result string;
  device_auth : result (option string);
  daemon_poll : option T;
  daemon_disk_poll : option Z
}.

Record init_env := {
  agent_version : string;               (* [__version__] *)
  platform_uname : string;              (* [' '.join(platform.uname())] *)
  SERVER_URL : string;                  (* [constants.SERVER_URL] *)
  settings_read : result settings;      (* [settings.read(conf_path)] *)
  init_time : T;                        (* [time.time()] at line 52 *)
  m2m_init : result unit;               (* [M2MManager.init_from_conf] *)
  port_forward_init : result unit       (* [PortForwardManager.init_from_conf] *)
}.

Definition _init (path : string) (url : option string) (env : init_env)
    : M unit client :=
  try_except
    (log_info "dataplicity %s" [LVal (VStr (agent_version env))] ;;
     log_info "uname=%s" [LVal (VStr (platform_uname env))] ;;
     conf <- lift (settings_read env) ;;
     let url' := match url with
                 | Some u => u
                 | None => default (SERVER_URL env) (server_url conf)
                 end in
     ser <- lift (device_serial conf) ;;
     auth <- lift (device_auth conf) ;;
     let poll_rate := default (t_of_Z 60) (daemon_poll conf) in
     let disk_rate := default (60 * 60) (daemon_disk_poll conf) in
     let next := init_time env in
     log_info "api=%s" [LVal (VStr url')] ;;
     log_info "serial=%s" [LVal (VStr ser)] ;;
     log_info "poll=%s" [LVal (VStr (t_show poll_rate))] ;;
     lift (m2m_init env) ;;
     lift (port_forward_init env) ;;
     ret {| conf_path := path; rpc_url := url'; _sent_meta := false;
            serial := ser; auth_token := auth;
            poll_rate_seconds := poll_rate;
            disk_poll_rate_seconds := disk_rate;
            next_disk_poll_time := next;
            other_attrs := ∅ |})
    (λ e, log_exception "failed to initialize client" e ;; raise e).

(** [Client(conf_path, rpc_url)]. *)
Definition Client (path : string) (url : option string) (env : init_env)
    : result client * list event :=
  let '(r, _, evs) := _init path url env tt in (r, evs).

(** ** [disk_poll] (lines 82-101) *)

(** Modelled from the spec: the disk-usage probe of [disk_tools], which is not
    among the sources, returns the total and used bytes of a path. *)
Record disk_space := { total : Z; used : Z }.

Record disk_env := {
  disk_now : T;                         (* [time.time()] at line 83 *)
  disk_usage : string → disk_space;
  disk_transport : transport
}.

Definition disk_poll (env : disk_env) : M client unit :=
  let now := disk_now env in
  next <- gets next_disk_poll_time ;;
  if t_geb now next then
    rate <- gets disk_poll_rate_seconds ;;
    modify (set_next_disk_poll_time (t_add now (t_of_Z rate))) ;;
    let space := disk_usage env "/" in
    ser <- gets serial ;;
    auth <- gets auth_token ;;
    with_batch (disk_transport env) (λ batch,
      batch <- lift (call_with_id "authenticate_result" "device.check_auth"
                 [("device_class", VStr "tuxtunnel"); ("serial", VStr ser);
                  ("auth_token", of_opt_str auth)] batch) ;;
      lift (call_with_id "set_disk_space_result" "device.set_disk_space"
              [("disk_capacity", VInt (total space));
               ("disk_used", VInt (used space))] batch)) ;;
    ret tt
  else ret tt.

(** ** [make_sync_id] (lines 114-120) *)

(** The letters [random.choice] draws from. *)
Definition sync_id_alphabet : list Ascii.ascii :=
  String.list_ascii_of_string "abcdefghijklmnopqrstuvwxyz".

(** [random.choice(seq)]: the element at an index below [len(seq)], here the
    raw draw of the generator reduced to that range; on an empty sequence
    there is no element ([IndexError]). *)
Definition random_choice (seq : list Ascii.ascii) (draw : nat)
    : option Ascii.ascii :=
  seq !! (draw mod length seq)%nat.

(** [make_sync_id]: twelve choices joined.  [draws i] is the raw draw of the
    generator at the [i]-th iteration of [xrange(12)]. *)
Definition make_sync_id (draws : nat → nat) : option string :=
  String.string_of_list_ascii
    <$> mapM (λ i, random_choice sync_id_alphabet (draws i)) (seq 0 12).

(** ** The sync cycle (lines 122-201) *)

Record sync_env := {
  sync_start : T;                       (* [time.time()] at line 130 *)
  sync_id : string;                     (* [make_sync_id()] *)
  get_meta : result (gmap string value); (* [device_meta.get_meta()] *)
  sync_transport : transport;
  sync_end : T                          (* [time.time()] at line 152 *)
}.

(** [d[key]] on a dict. *)
Definition getitem {S} (d : gmap string value) (key : string) : M S value :=
  match d !! key with
  | Some v => ret v
  | None => raise (KeyError key)
  end.

(** [_sync_meta] (lines 155-184).  The Python return value is [False] on the
    first path and [None], by falling off the end, on the two others; the
    batch is returned as the calls left it. *)
Definition _sync_meta (env : sync_env) (batch : Batch)
    : M client (value * Batch) :=
  sent_meta <- gets _sent_meta ;;
  if sent_meta then ret (VBool false, batch)
  else
    match get_meta env with
    | Raise e =>
        log_exception "error getting meta" e ;;
        ret (VNone, batch)
    | Ok meta =>
        agent <- getitem meta "agent_version" ;;
        batch <- lift (call_with_id "set_agent_version_result"
                   "device.set_agent_version" [("agent_version", agent)] batch) ;;
        machine <- getitem meta "machine_type" ;;
        batch <- lift (call_with_id "set_machine_type_result"
                   "device.set_machine_type"
                   [("machine_type", py_or machine (VStr "other"))] batch) ;;
        os <- getitem meta "os_version" ;;
        batch <- lift (call_with_id "set_os_version_result"
                   "device.set_os_version" [("os_version", os)] batch) ;;
        uname <- getitem meta "uname" ;;
        batch <- lift (call_with_id "set_uname_result" "device.set_uname"
                   [("uname", uname)] batch) ;;
        ret (VNone, batch)
    end.

(** The four result slots [_check_meta] verifies (lines 192-195). *)
Definition meta_slots : list string :=
  ["set_agent_version_result"; "set_machine_type_result";
   "set_os_version_result"; "set_uname_result"].

(** [_check_meta] (lines 186-201).  The handler of line 198 goes through
    [self.log], an attribute lookup on the instance. *)
Definition _check_meta (batch : Batch) : M client unit :=
  sent_meta <- gets _sent_meta ;;
  if sent_meta then ret tt
  else
    try_except_else (lift (check meta_slots batch))
      (λ e, if is_Exception e
            then self_attr "log" ;;
                 log_warning "failed to set device meta (%s)" [LExn e]
            else raise e)
      (λ _, modify (set_sent_meta true)).

(** The body of the batch scope of [_sync] (lines 134-143). *)
Definition _sync_scope (env : sync_env) (batch : Batch) : M client Batch :=
  ser <- gets serial ;;
  auth <- gets auth_token ;;
  batch <- lift (call_with_id "authenticate_result" "device.check_auth"
             [("device_class", VStr "tuxtunnel"); ("serial", VStr ser);
              ("auth_token", of_opt_str auth);
              ("sync_id", VStr (sync_id env))] batch) ;;
  '(synced, batch) <- _sync_meta env batch ;;
  if negb (truthy synced) then ret (abandon batch) else ret batch.

(** What follows the scope (lines 145-149). *)
Definition _sync_verify (batch : Batch) : M client unit :=
  if sent batch then
    lift (get_result "authenticate_result" batch) ;;
    _check_meta batch
  else ret tt.

(** [_sync] (lines 129-153). *)
Definition _sync (env : sync_env) : M client unit :=
  try_finally
    (batch <- with_batch (sync_transport env) (_sync_scope env) ;;
     _sync_verify batch)
    (log_debug "sync complete %0.2fs"
       [LVal (VStr (t_show (t_sub (sync_end env) (sync_start env))))]).

(** [sync] (lines 122-127) around an arbitrary cycle body.  The lock is held
    for the body's duration; one thread runs here, so taking it is a no-op. *)
Definition sync_with (body : M client unit) : M client unit :=
  try_except body
    (λ e, if is_Exception e
          then log_error "sync failed %s" [LExn e]
          else raise e).

Definition sync (env : sync_env) : M client unit := sync_with (_sync env).

(** ** [poll], [close] and [run_forever] (lines 65-112) *)

Record poll_env := {
  poll_time : T;                        (* [time.time()] at line 105 *)
  poll_disk : disk_env;
  poll_sync : sync_env
}.

Definition poll (env : poll_env) : M client unit :=
  log_debug "poll t=%.02fs" [LVal (VStr (t_show (poll_time env)))] ;;
  disk_poll (poll_disk env) ;;
  sync (poll_sync env).

(** [close]: the body is [pass]; the call itself is recorded. *)
Definition close : M client unit := emit EvClose.

(** The [while] loop of line 69 over the ticks at which
    [exit_event.wait] timed out; at the end of the list the event is set and
    the loop ends. *)
Definition poll_loop {E} (periodic : E → M client unit) (ticks : list E)
    : M client unit :=
  for_each periodic ticks.

(** [run_forever] (lines 65-80) around an arbitrary periodic operation: the
    first call of line 68, then the loop. *)
Definition run_forever_with {E} (periodic : E → M client unit)
    (first : E) (ticks : list E) : M client unit :=
  try_finally
    (try_except
       (periodic first ;; poll_loop periodic ticks)
       (λ e, match e with
             | SystemExit => log_debug "exit requested" [] ;; ret tt
             | KeyboardInterrupt => log_debug "user exit" [] ;; ret tt
             | _ => raise e
             end))
    (log_debug "closing" [] ;;
     close ;;
     log_debug "goodbye" []).

Definition run_forever (first : poll_env) (ticks : list poll_env)
    : M client unit :=
  run_forever_with poll first ticks.

(** ** [set_m2m_identity] (lines 203-242) *)

Definition set_m2m_identity (tr : transport) (identity : option string)
    : M client (option string) :=
  auth <- gets auth_token ;;
  match auth with
  | None =>
      disable_sync <- self_attr "disable_sync" ;;
      (if negb (truthy disable_sync)
       then self_attr "log" ;;
            log_debug
              "skipping m2m identity notify because we don't have an auth token" []
       else ret tt) ;;
      ret None
  | Some _ =>
      try_except_else
        (url <- gets rpc_url ;;
         log_debug "notiying server (%s) of m2m identity (%s)"
           [LVal (VStr url); LVal (py_or (of_opt_str identity) (VStr "<None>"))] ;;
         ser <- gets serial ;;
         batch <- with_batch tr (λ batch,
           batch <- lift (call_with_id "authenticate_result" "device.check_auth"
                      [("device_class", VStr "tuxtunnel"); ("serial", VStr ser);
                       ("auth_token", of_opt_str auth)] batch) ;;
           lift (call_with_id "associate_result" "m2m.associate"
                   [("identity", py_or (of_opt_str identity) (VStr EmptyString))]
                   batch)) ;;
         lift (get_result "authenticate_result" batch) ;;
         lift (get_result "associate_result" batch))
        (λ e, match e with
              | JSONRPCError m code msg =>
                  log_error "unable to associate m2m identity (%s=%s, %s)"
                    [LVal (VStr m); LVal (VInt code); LVal (VStr msg)] ;;
                  ret None
              | ServerUnreachableError _ =>
                  log_debug "set m2m identity failed, %s" [LExn e] ;;
                  ret None
              | _ =>
                  log_error "unable to set m2m identity" [] ;;
                  ret None
              end)
        (λ _, log_debug "server received m2m identity %s"
                [LVal (of_opt_str identity)] ;;
              ret identity)
  end.

End Engine.

(** ** Observations on a run *)

(** The requests that went out, in order. *)
Definition requests (evs : list event) : list (list call) :=
  omap (λ ev, match ev with EvRequest cs => Some cs | _ => None end) evs.

Definition is_open (ev : event) : bool :=
  match ev with EvBatchOpen => true | _ => false end.

Definition is_close (ev : event) : bool :=
  match ev with EvClose => true | _ => false end.

Definition count_events (p : event → bool) (evs : list event) : nat :=
  length (List.filter p evs).

(** How many batch scopes were entered, and how often the close hook ran. *)
Definition batches_opened (evs : list event) : nat := count_events is_open evs.
Definition close_calls (evs : list event) : nat := count_events is_close evs.

(** The log records of a run, and whether all of them are at debug level. *)
Definition log_levels (evs : list event) : list level :=
  omap (λ ev, match ev with EvLog l _ _ => Some l | _ => None end) evs.

Definition is_debug (l : level) : bool :=
  match l with DEBUG => true | _ => false end.

(** A request carries a disk-usage report when one of its calls is
    [device.set_disk_space]. *)
Definition has_disk_report (cs : list call) : bool :=
  existsb (λ c, String.eqb (method c) "device.set_disk_space") cs.

Definition issues_disk_report (evs : list event) : bool :=
  existsb has_disk_report (requests evs).

(** Every one of the four metadata slots of a sent batch holds a value. *)
Definition slot_ok (b : Batch) (name : string) : bool :=
  match results b !! name with
  | Some (SlotOk _) => true
  | _ => false
  end.

Definition verified (b : Batch) : bool :=
  sent b && forallb (slot_ok b) meta_slots.

(** A computation keeps a property of the state, whatever its outcome. *)
Definition preserves {S A} (P : S → Prop) (m : M S A) : Prop :=
  ∀ s, P s → P (final (m s)).

(** A computation emits only events of one kind. *)
Definition emits_only {S A} (Q : event → Prop) (m : M S A) : Prop :=
  ∀ s, Forall Q (events (m s)).

(** A property of the client that the disk-poll timer does not affect. *)
Definition timer_blind {T} (P : client (T:=T) → Prop) : Prop :=
  ∀ t c, P c → P (set_next_disk_poll_time t c).

(** The calls the two fixed-shape batches hold. *)
Definition authenticate_call {T} (c : client (T:=T)) : call :=
  {| call_id := "authenticate_result"; method := "device.check_auth";
     params := [("device_class", VStr "tuxtunnel"); ("serial", VStr (serial c));
                ("auth_token", of_opt_str (auth_token c))] |}.

Definition disk_calls {T} (env : disk_env (T:=T)) (c : client (T:=T))
    : list call :=
  [authenticate_call c;
   {| call_id := "set_disk_space_result"; method := "device.set_disk_space";
      params := [("disk_capacity", VInt (total (disk_usage env "/")));
                 ("disk_used", VInt (used (disk_usage env "/")))] |}].

Definition identity_calls {T} (identity : option string) (c : client (T:=T))
    : list call :=
  [authenticate_call c;
   {| call_id := "associate_result"; method := "m2m.associate";
      params := [("identity", py_or (of_opt_str identity) (VStr EmptyString))] |}].

(** The authenticate call of a sync cycle, which carries the sync id. *)
Definition cycle_authenticate_call {T} (env : sync_env (T:=T))
    (c : client (T:=T)) : call :=
  {| call_id := "authenticate_result"; method := "device.check_auth";
     params := [("device_class", VStr "tuxtunnel"); ("serial", VStr (serial c));
                ("auth_token", of_opt_str (auth_token c));
                ("sync_id", VStr (sync_id env))] |}.

(** What the transport answered for one result name. *)
Definition slot_of (resp : response) (name : string) : option slot :=
  match resp with
  | Replied res => res !! name
  | SendRaises _ => None
  end.

(** The answers to an identity announcement, by the first thing that goes
    wrong when the two results are read in order. *)
Definition remote_fault_on_a_slot (resp : response) (m : string) (code : Z)
    (msg : string) : Prop :=
  slot_of resp "authenticate_result" = Some (SlotFault (RemoteFault m code msg))
  ∨ ((∃ v, slot_of resp "authenticate_result" = Some (SlotOk v))
     ∧ slot_of resp "associate_result"
       = Some (SlotFault (RemoteFault m code msg))).

Definition server_unreachable (resp : response) (msg : string) : Prop :=
  resp = SendRaises (ServerUnreachableError msg)
  ∨ slot_of resp "authenticate_result" = Some (SlotFault (TransportFault msg))
  ∨ ((∃ v, slot_of resp "authenticate_result" = Some (SlotOk v))
     ∧ slot_of resp "associate_result" = Some (SlotFault (TransportFault msg))).

Definition both_acknowledged (resp : response) : Prop :=
  ∃ v w, slot_of resp "authenticate_result" = Some (SlotOk v)
         ∧ slot_of resp "associate_result" = Some (SlotOk w).

(** An event other than a call of the close hook. *)
Definition not_close (ev : event) : Prop := is_close ev = false.

(** The public and private operations of a constructed client, as one type,
    to quantify over all of them. *)
Inductive operation {T} :=
| OpDiskPoll (env : disk_env (T:=T))
| OpSyncMeta (env : sync_env (T:=T)) (batch : Batch)
| OpCheckMeta (batch : Batch)
| OpSyncCycle (env : sync_env (T:=T))
| OpSync (env : sync_env (T:=T))
| OpPoll (env : poll_env (T:=T))
| OpClose
| OpRunForever (first : poll_env (T:=T)) (ticks : list (poll_env (T:=T)))
| OpSetIdentity (tr : transport) (identity : option string).
Arguments operation : clear implicits.

Definition run_op {T} {TS : Timestamp T} (o : operation T)
    : M (client (T:=T)) unit :=
  match o with
  | OpDiskPoll env => disk_poll env
  | OpSyncMeta env batch => _sync_meta env batch ;; ret tt
  | OpCheckMeta batch => _check_meta batch
  | OpSyncCycle env => _sync env
  | OpSync env => sync env
  | OpPoll env => poll env
  | OpClose => close
  | OpRunForever first ticks => run_forever first ticks
  | OpSetIdentity tr identity => set_m2m_identity tr identity ;; ret tt
  end.

(** ** Further observations *)

(** A lowercase ASCII letter. *)
Definition is_lower (a : Ascii.ascii) : bool :=
  (97 <=? Ascii.nat_of_ascii a)%nat && (Ascii.nat_of_ascii a <=? 122)%nat.

(** The times at which a sequence of disk polls, run one after the other on
    the same client, issued a report. *)
Fixpoint report_times {T} {TS : Timestamp T} (envs : list (disk_env (T:=T)))
    (c : client (T:=T)) : list T :=
  match envs with
  | [] => []
  | env :: rest =>
      (if issues_disk_report (events (disk_poll env c))
       then [disk_now env] else [])
      ++ report_times rest (final (disk_poll env c))
  end.

(** Each time of the list has reached the due time that the one before it
    armed: [next] for the first, then the earlier time plus the interval. *)
Fixpoint due_chain {T} {TS : Timestamp T} (rate : Z) (next : T) (ts : list T)
    : Prop :=
  match ts with
  | [] => True
  | t :: rest =>
      t_geb t next = true ∧ due_chain rate (t_add t (t_of_Z rate)) rest
  end.

(** The keys [_sync_meta] reads from the metadata, in the order it reads
    them, and the first of them a dictionary lacks. *)
Definition meta_keys : list string :=
  ["agent_version"; "machine_type"; "os_version"; "uname"].

Definition first_missing (meta : gmap string value) : option string :=
  List.find (λ k, match meta !! k with None => true | Some _ => false end)
    meta_keys.

(** The record [poll] writes when it starts. *)
Definition is_poll_record (ev : event) : bool :=
  match ev with
  | EvLog DEBUG fmt _ => String.eqb fmt "poll t=%.02fs"
  | _ => false
  end.

Definition polls_started (evs : list event) : nat :=
  count_events is_poll_record evs.

(** The record [_sync] writes when it ends. *)
Definition is_sync_complete (ev : event) : bool :=
  match ev with
  | EvLog DEBUG fmt _ => String.eqb fmt "sync complete %0.2fs"
  | _ => false
  end.

(** ** Concrete runs

    A device with serial and auth token, a server that acknowledges every
    call, one that cannot be reached, and the metadata of a host. *)
Module Examples.

Definition all_ok : transport :=
  λ cs, Replied (list_to_map (map (λ c, (call_id c, SlotOk VNone)) cs)).

Definition unreachable : transport :=
  λ _, SendRaises (ServerUnreachableError "connection refused").

Definition settings0 : settings (T:=Z) :=
  {| server_url := None; device_serial := Ok "test-serial";
     device_auth := Ok (Some "test-auth"); daemon_poll := None;
     daemon_disk_poll := None |}.

Definition init0 : init_env (T:=Z) :=
  {| agent_version := "0.4.12"; platform_uname := "Linux raspberrypi";
     SERVER_URL := "https://api.dataplicity.com"; settings_read := Ok settings0;
     init_time := 1000; m2m_init := Ok tt; port_forward_init := Ok tt |}.

(** The client [Client "/etc/dataplicity.conf" None init0] builds. *)
Definition c0 : client (T:=Z) :=
  {| conf_path := "/etc/dataplicity.conf";
     rpc_url := "https://api.dataplicity.com"; _sent_meta := false;
     serial := "test-serial"; auth_token := Some "test-auth";
     poll_rate_seconds := 60; disk_poll_rate_seconds := 3600;
     next_disk_poll_time := 1000; other_attrs := ∅ |}.

(** The same client once its metadata was acknowledged. *)
Definition c_sent : client (T:=Z) := set_sent_meta true c0.

(** The same device with no auth token configured. *)
Definition init_noauth : init_env (T:=Z) :=
  {| agent_version := "0.4.12"; platform_uname := "Linux raspberrypi";
     SERVER_URL := "https://api.dataplicity.com";
     settings_read :=
       Ok {| server_url := None; device_serial := Ok "test-serial";
             device_auth := Ok None; daemon_poll := None;
             daemon_disk_poll := None |};
     init_time := 1000; m2m_init := Ok tt; port_forward_init := Ok tt |}.

Definition c_noauth : client (T:=Z) :=
  {| conf_path := "/etc/dataplicity.conf";
     rpc_url := "https://api.dataplicity.com"; _sent_meta := false;
     serial := "test-serial"; auth_token := None;
     poll_rate_seconds := 60; disk_poll_rate_seconds := 3600;
     next_disk_poll_time := 1000; other_attrs := ∅ |}.

Definition meta0 : gmap string value :=
  list_to_map [("agent_version", VStr "0.4.12"); ("machine_type", VNone);
               ("os_version", VStr "9.4"); ("uname", VStr "Linux raspberrypi")].

(** A cycle with metadata collected and every call acknowledged. *)
Definition cycle_ok : sync_env (T:=Z) :=
  {| sync_start := 1000; sync_id := "qwertyuiopas"; get_meta := Ok meta0;
     sync_transport := all_ok; sync_end := 1001 |}.

(** A cycle whose metadata dictionary lacks a key. *)
Definition cycle_badmeta : sync_env (T:=Z) :=
  {| sync_start := 1000; sync_id := "qwertyuiopas";
     get_meta := Ok (delete "uname" meta0);
     sync_transport := all_ok; sync_end := 1001 |}.

Definition disk0 (now : Z) : disk_env (T:=Z) :=
  {| disk_now := now;
     disk_usage := λ _, {| total := 16000000000; used := 4000000000 |};
     disk_transport := all_ok |}.

(** A poll at [now]. *)
Definition poll_at (now : Z) : poll_env (T:=Z) :=
  {| poll_time := now; poll_disk := disk0 now; poll_sync := cycle_ok |}.

(** A batch that was sent and in which the four metadata slots and the
    authenticate slot hold values. *)
Definition acked_batch : Batch :=
  {| calls := []; abandoned := false; sent := true;
     results := list_to_map
       (map (λ n, (n, SlotOk VNone)) ("authenticate_result" :: meta_slots)) |}.

(** A sent batch in which the server faulted one metadata call. *)
Definition faulted_batch : Batch :=
  {| calls := []; abandoned := false; sent := true;
     results := <["set_uname_result" :=
                    SlotFault (RemoteFault "device.set_uname" 32000 "rejected")]>
                (results acked_batch) |}.

(** The periodic operations of [test_system_exit_call]. *)
Definition poll_which_raises : unit → M (client (T:=Z)) unit :=
  λ _, raise SystemExit.

Definition poll_which_raises_keyboardint : unit → M (client (T:=Z)) unit :=
  λ _, raise KeyboardInterrupt.

(** A poll during which the user interrupts the blocking dispatch of the
    disk batch. *)
Definition poll_interrupted : poll_env (T:=Z) :=
  {| poll_time := 5000;
     poll_disk :=
       {| disk_now := 5000;
          disk_usage := λ _, {| total := 16000000000; used := 4000000000 |};
          disk_transport := λ _, SendRaises KeyboardInterrupt |};
     poll_sync := cycle_ok |}.

(** The configuration of [test_client_unsuccesful_init]: no serial file. *)
Definition init_noserial : init_env (T:=Z) :=
  {| agent_version := "0.4.12"; platform_uname := "Linux raspberrypi";
     SERVER_URL := "https://api.dataplicity.com";
     settings_read := Raise (IOError "non-existing-file");
     init_time := 1000; m2m_init := Ok tt; port_forward_init := Ok tt |}.

(** A server that faults the identity association. *)
Definition rejects_associate : transport :=
  λ _, Replied (<["associate_result" :=
                    SlotFault (RemoteFault "m2m.associate" 32001 "no such identity")]>
                (<["authenticate_result" := SlotOk VNone]> ∅)).

End Examples.

(** Further runs: a disk report that cannot be delivered, a batch whose
    authentication was refused, and a generator that counts upwards. *)
Module Scenarios.
Import Examples.

(** A poll at [now] during which the server cannot be reached for the disk
    report. *)
Definition poll_unreachable (now : Z) : poll_env (T:=Z) :=
  {| poll_time := now;
     poll_disk :=
       {| disk_now := now;
          disk_usage := λ _, {| total := 16000000000; used := 4000000000 |};
          disk_transport := unreachable |};
     poll_sync := cycle_ok |}.

(** A sent batch in which the four metadata slots hold values and the
    authenticate slot a fault. *)
Definition refused_batch : Batch :=
  {| calls := []; abandoned := false; sent := true;
     results := <["authenticate_result" :=
                    SlotFault (RemoteFault "device.check_auth" 32003 "bad token")]>
                (results acked_batch) |}.

(** Raw draws 0, 7, 14, ... *)
Definition counting_draws : nat → nat := λ i, (7 * i)%nat.

End Scenarios.

(** * Properties *)

(** ** Reasoning about runs *)

Ltac unfold_m :=
  unfold log_debug, log_info, log_warning, log_error, log_exception in *;
  unfold bind, ret, raise, emit, gets, modify, lift, try_except,
    try_except_else, try_finally, outcome, final, events in *.

Lemma count_events_app p evs1 evs2 :
  count_events p (evs1 ++ evs2)
  = (count_events p evs1 + count_events p evs2)%nat.
Proof. unfold count_events. by rewrite List.filter_app, length_app. Qed.

Lemma requests_app evs1 evs2 :
  requests (evs1 ++ evs2) = requests evs1 ++ requests evs2.
Proof. apply omap_app. Qed.

Lemma requests_cons ev evs :
  requests (ev :: evs)
  = match ev with EvRequest cs => cs :: requests evs | _ => requests evs end.
Proof. by destruct ev. Qed.

Lemma count_events_cons p ev evs :
  count_events p (ev :: evs)
  = ((if p ev then 1 else 0) + count_events p evs)%nat.
Proof. unfold count_events. simpl. by destruct (p ev). Qed.

Lemma count_events_nil p : count_events p [] = 0%nat.
Proof. done. Qed.

Ltac observe :=
  unfold batches_opened, close_calls in *;
  rewrite ?app_nil_r;
  repeat first
    [ rewrite requests_app | rewrite requests_cons
    | rewrite count_events_app | rewrite count_events_cons
    | rewrite count_events_nil ];
  simpl.

Section Combinators.
Context {S : Type} (P : S → Prop) (Q : event → Prop).

Lemma preserves_ret {A} (a : A) : preserves P (ret a).
Proof. by intros s. Qed.

Lemma preserves_raise {A} e : preserves P (raise (A:=A) e).
Proof. by intros s. Qed.

Lemma preserves_lift {A} (r : result A) : preserves P (lift r).
Proof. by intros s. Qed.

Lemma preserves_emit ev : preserves P (emit ev).
Proof. by intros s. Qed.

Lemma preserves_gets {A} (f : S → A) : preserves P (gets f).
Proof. by intros s. Qed.

Lemma preserves_modify (f : S → S) : (∀ s, P s → P (f s)) → preserves P (modify f).
Proof. intros Hf s. apply Hf. Qed.

Lemma preserves_bind {A B} (m : M S A) (k : A → M S B) :
  preserves P m → (∀ a, preserves P (k a)) → preserves P (bind m k).
Proof.
  intros Hm Hk s Hs. specialize (Hm s Hs). unfold final, bind in *.
  destruct (m s) as [[[a|e] s1] ev1]; simpl in *; [|done].
  specialize (Hk a s1 Hm). unfold final in Hk.
  by destruct (k a s1) as [[r s2] ev2].
Qed.

Lemma preserves_try_except {A} (m : M S A) h :
  preserves P m → (∀ e, preserves P (h e)) → preserves P (try_except m h).
Proof.
  intros Hm Hh s Hs. specialize (Hm s Hs). unfold final, try_except in *.
  destruct (m s) as [[[a|e] s1] ev1]; simpl in *; [done|].
  specialize (Hh e s1 Hm). unfold final in Hh.
  by destruct (h e s1) as [[r s2] ev2].
Qed.

Lemma preserves_try_except_else {A B} (m : M S A) (h : exn → M S B) k :
  preserves P m → (∀ e, preserves P (h e)) → (∀ a, preserves P (k a)) →
  preserves P (try_except_else m h k).
Proof.
  intros Hm Hh Hk s Hs. specialize (Hm s Hs). unfold final, try_except_else in *.
  destruct (m s) as [[[a|e] s1] ev1]; simpl in *.
  - specialize (Hk a s1 Hm). unfold final in Hk.
    by destruct (k a s1) as [[r s2] ev2].
  - specialize (Hh e s1 Hm). unfold final in Hh.
    by destruct (h e s1) as [[r s2] ev2].
Qed.

Lemma preserves_try_finally {A} (m : M S A) f :
  preserves P m → preserves P f → preserves P (try_finally m f).
Proof.
  intros Hm Hf s Hs. specialize (Hm s Hs). unfold final, try_finally in *.
  destruct (m s) as [[r s1] ev1]; simpl in *.
  specialize (Hf s1 Hm). unfold final in Hf.
  by destruct (f s1) as [[[[]|e] s2] ev2].
Qed.

Lemma preserves_for_each {A} (f : A → M S unit) xs :
  (∀ x, preserves P (f x)) → preserves P (for_each f xs).
Proof.
  intros Hf. induction xs as [|x xs IH]; simpl.
  - apply preserves_ret.
  - apply preserves_bind; auto.
Qed.

Lemma preserves_batch_exit tr b : preserves P (batch_exit tr b).
Proof.
  unfold batch_exit. destruct (abandoned b); [apply preserves_ret|].
  apply preserves_bind; [apply preserves_emit|]. intros _.
  destruct (tr (calls b)); [apply preserves_raise | apply preserves_ret].
Qed.

Lemma preserves_with_batch tr body :
  (∀ b, preserves P (body b)) → preserves P (with_batch tr body).
Proof.
  intros Hb. unfold with_batch.
  apply preserves_bind; [apply preserves_emit|]. intros _.
  apply preserves_bind; [apply Hb|]. intros b. apply preserves_batch_exit.
Qed.

Lemma emits_only_ret {A} (a : A) : emits_only (S:=S) Q (ret a).
Proof. intros s. constructor. Qed.

Lemma emits_only_raise {A} e : emits_only (S:=S) Q (raise (A:=A) e).
Proof. intros s. constructor. Qed.

Lemma emits_only_lift {A} (r : result A) : emits_only (S:=S) Q (lift r).
Proof. intros s. constructor. Qed.

Lemma emits_only_gets {A} (f : S → A) : emits_only Q (gets f).
Proof. intros s. constructor. Qed.

Lemma emits_only_modify (f : S → S) : emits_only Q (modify f).
Proof. intros s. constructor. Qed.

Lemma emits_only_emit ev : Q ev → emits_only (S:=S) Q (emit ev).
Proof. intros Hq s. by repeat constructor. Qed.

Lemma emits_only_bind {A B} (m : M S A) (k : A → M S B) :
  emits_only Q m → (∀ a, emits_only Q (k a)) → emits_only Q (bind m k).
Proof.
  intros Hm Hk s. specialize (Hm s). unfold events, bind in *.
  destruct (m s) as [[[a|e] s1] ev1]; simpl in *; [|done].
  specialize (Hk a s1). unfold events in Hk.
  destruct (k a s1) as [[r s2] ev2]; simpl in *. by apply Forall_app.
Qed.

Lemma emits_only_try_except {A} (m : M S A) h :
  emits_only Q m → (∀ e, emits_only Q (h e)) → emits_only Q (try_except m h).
Proof.
  intros Hm Hh s. specialize (Hm s). unfold events, try_except in *.
  destruct (m s) as [[[a|e] s1] ev1]; simpl in *; [done|].
  specialize (Hh e s1). unfold events in Hh.
  destruct (h e s1) as [[r s2] ev2]; simpl in *. by apply Forall_app.
Qed.

Lemma emits_only_try_except_else {A B} (m : M S A) (h : exn → M S B) k :
  emits_only Q m → (∀ e, emits_only Q (h e)) → (∀ a, emits_only Q (k a)) →
  emits_only Q (try_except_else m h k).
Proof.
  intros Hm Hh Hk s. specialize (Hm s). unfold events, try_except_else in *.
  destruct (m s) as [[[a|e] s1] ev1]; simpl in *.
  - specialize (Hk a s1). unfold events in Hk.
    destruct (k a s1) as [[r s2] ev2]; simpl in *. by apply Forall_app.
  - specialize (Hh e s1). unfold events in Hh.
    destruct (h e s1) as [[r s2] ev2]; simpl in *. by apply Forall_app.
Qed.

Lemma emits_only_try_finally {A} (m : M S A) f :
  emits_only Q m → emits_only Q f → emits_only Q (try_finally m f).
Proof.
  intros Hm Hf s. specialize (Hm s). unfold events, try_finally in *.
  destruct (m s) as [[r s1] ev1]; simpl in *.
  specialize (Hf s1). unfold events in Hf.
  destruct (f s1) as [[[[]|e] s2] ev2]; simpl in *; by apply Forall_app.
Qed.

Lemma emits_only_for_each {A} (f : A → M S unit) xs :
  (∀ x, emits_only Q (f x)) → emits_only Q (for_each f xs).
Proof.
  intros Hf. induction xs as [|x xs IH]; simpl.
  - apply emits_only_ret.
  - apply emits_only_bind; auto.
Qed.

End Combinators.

Create HintDb run discriminated.
#[export] Hint Resolve preserves_ret preserves_raise preserves_lift
  preserves_emit preserves_gets preserves_bind preserves_try_except
  preserves_try_except_else preserves_try_finally preserves_for_each
  preserves_batch_exit preserves_with_batch
  emits_only_ret emits_only_raise emits_only_lift emits_only_gets
  emits_only_modify emits_only_emit emits_only_bind emits_only_try_except
  emits_only_try_except_else emits_only_try_finally emits_only_for_each : run.

(** ** What each operation does *)

Section Properties.
Context {T : Type} {TS : Timestamp T}.
Implicit Types (c : client (T:=T)) (P : client (T:=T) → Prop).

Lemma disk_poll_not_due (env : disk_env) c :
  t_geb (disk_now env) (next_disk_poll_time c) = false →
  disk_poll env c = (Ok tt, c, []).
Proof. intros H. unfold disk_poll. unfold_m. by rewrite H. Qed.

Lemma disk_poll_due (env : disk_env) c :
  t_geb (disk_now env) (next_disk_poll_time c) = true →
  disk_poll env c =
    (match disk_transport env (disk_calls env c) with
     | SendRaises e => Raise e
     | Replied _ => Ok tt
     end,
     set_next_disk_poll_time
       (t_add (disk_now env) (t_of_Z (disk_poll_rate_seconds c))) c,
     [EvBatchOpen; EvRequest (disk_calls env c)]).
Proof.
  intros H. unfold disk_poll, with_batch, batch_exit. unfold_m. rewrite H. simpl.
  unfold disk_calls, authenticate_call. simpl.
  by destruct (disk_transport env _).
Qed.

(** The scope of a cycle never touches the client and never leaves a batch
    that could be sent: it ends abandoned, or a missing metadata key raises. *)
Lemma _sync_scope_run (env : sync_env (T:=T)) c :
  ∃ r evs, _sync_scope env new_batch c = (r, c, evs) ∧
    requests evs = [] ∧ batches_opened evs = 0%nat ∧ close_calls evs = 0%nat ∧
    match r with
    | Ok b => abandoned b = true ∧ sent b = false
    | Raise e => ∃ k, e = KeyError k
    end.
Proof.
  unfold _sync_scope, _sync_meta, getitem. unfold_m. simpl.
  destruct (_sent_meta c) eqn:Hs; simpl.
  { eexists _, _. split; [reflexivity|]. simpl. auto. }
  destruct (get_meta env) as [meta|e]; simpl.
  2: { eexists _, _. split; [reflexivity|]. simpl. auto. }
  destruct (meta !! "agent_version"); simpl.
  2: { eexists _, _. split; [reflexivity|]. simpl. eauto 10. }
  destruct (meta !! "machine_type"); simpl.
  2: { eexists _, _. split; [reflexivity|]. simpl. eauto 10. }
  destruct (meta !! "os_version"); simpl.
  2: { eexists _, _. split; [reflexivity|]. simpl. eauto 10. }
  destruct (meta !! "uname"); simpl.
  2: { eexists _, _. split; [reflexivity|]. simpl. eauto 10. }
  eexists _, _. split; [reflexivity|]. simpl. auto.
Qed.

Lemma _sync_run (env : sync_env (T:=T)) c :
  ∃ r evs, _sync env c = (r, c, evs) ∧
    requests evs = [] ∧ batches_opened evs = 1%nat ∧ close_calls evs = 0%nat ∧
    (r = Ok tt ∨ ∃ k, r = Raise (KeyError k)).
Proof.
  destruct (_sync_scope_run env c)
    as (r & evs & Hrun & Hreq & Hopen & Hclose & Hr).
  unfold _sync, with_batch, batch_exit, _sync_verify. unfold_m. simpl.
  rewrite Hrun. destruct r as [b|e].
  - destruct Hr as [-> ->]. simpl. eexists _, _. split; [reflexivity|].
    observe. rewrite Hreq, Hopen, Hclose. eauto 10.
  - destruct Hr as [k ->]. simpl. eexists _, _. split; [reflexivity|].
    observe. rewrite Hreq, Hopen, Hclose. eauto 10.
Qed.

Lemma sync_run (env : sync_env (T:=T)) c :
  ∃ evs, sync env c = (Ok tt, c, evs) ∧
    requests evs = [] ∧ batches_opened evs = 1%nat ∧ close_calls evs = 0%nat.
Proof.
  destruct (_sync_run env c) as (r & evs & Hrun & Hreq & Hopen & Hclose & Hr).
  unfold sync, sync_with. unfold_m. rewrite Hrun.
  destruct Hr as [-> | [k ->]]; simpl.
  - eauto.
  - eexists. split; [reflexivity|].
    observe. rewrite Hreq, Hopen, Hclose. eauto 10.
Qed.

(** Over any number of cycles nothing is sent and the client stays as it
    was. *)
Lemma sync_cycles_run (envs : list (sync_env (T:=T))) c :
  ∃ evs, for_each sync envs c = (Ok tt, c, evs) ∧ requests evs = [] ∧
    batches_opened evs = length envs.
Proof.
  induction envs as [|env envs IH]; simpl.
  - by eexists.
  - destruct (sync_run env c) as (ev1 & Hrun & Hreq & Hopen & _).
    destruct IH as (ev2 & Hrest & Hreq2 & Hopen2).
    unfold bind. rewrite Hrun, Hrest. eexists. split; [reflexivity|].
    observe. by rewrite Hreq, Hreq2, Hopen, Hopen2.
Qed.

(** The two paths of [_sync_meta] that queue nothing. *)
Lemma _sync_scope_already_sent (env : sync_env (T:=T)) c :
  _sent_meta c = true →
  _sync_scope env new_batch c =
    (Ok {| calls := [cycle_authenticate_call env c]; abandoned := true;
           sent := false; results := ∅ |}, c, []).
Proof.
  intros H. unfold _sync_scope, _sync_meta. unfold_m. simpl. by rewrite H.
Qed.

Lemma _sync_scope_collect_fails (env : sync_env (T:=T)) c e :
  _sent_meta c = false → get_meta env = Raise e →
  _sync_scope env new_batch c =
    (Ok {| calls := [cycle_authenticate_call env c]; abandoned := true;
           sent := false; results := ∅ |}, c,
     [EvLog ERROR "error getting meta" [LExn e]]).
Proof.
  intros H He. unfold _sync_scope, _sync_meta. unfold_m. simpl.
  by rewrite H, He.
Qed.

(** A cycle whose scope ends with an abandoned batch sends nothing and
    returns. *)
Lemma _sync_abandoned (env : sync_env (T:=T)) c b evs :
  _sync_scope env new_batch c = (Ok b, c, evs) →
  abandoned b = true → sent b = false →
  _sync env c =
    (Ok tt, c,
     EvBatchOpen :: evs ++
       [EvLog DEBUG "sync complete %0.2fs"
          [LVal (VStr (t_show (t_sub (sync_end env) (sync_start env))))]]).
Proof.
  intros Hrun Hab Hsent.
  unfold _sync, with_batch, batch_exit, _sync_verify. unfold_m. simpl.
  rewrite Hrun, Hab. simpl. rewrite Hsent. simpl. by rewrite !app_nil_r.
Qed.

(** ** The verification of the metadata slots *)

Lemma check_verified b : check meta_slots b = Ok tt ↔ verified b = true.
Proof.
  unfold verified, slot_ok, meta_slots, check, get_result.
  destruct (sent b); simpl; [|done].
  repeat (match goal with
          | |- context [results b !! ?k] =>
              destruct (results b !! k) as [[?|?]|]; simpl
          end); split; (done || congruence).
Qed.

Lemma check_raises_Exception names b e :
  check names b = Raise e → is_Exception e = true.
Proof.
  induction names as [|n names IH]; simpl; [done|].
  unfold get_result. destruct (sent b); simpl; [|by intros [= <-]].
  destruct (results b !! n) as [[v|[m code msg|msg]]|]; simpl;
    [done | by intros [= <-] .. ].
Qed.

Lemma check_outcome names b :
  check names b = Ok tt ∨ ∃ e, check names b = Raise e.
Proof. destruct (check names b) as [[]|e]; eauto. Qed.

Lemma _check_meta_already_sent b c :
  _sent_meta c = true → _check_meta b c = (Ok tt, c, []).
Proof. intros H. unfold _check_meta. unfold_m. by rewrite H. Qed.

Lemma _check_meta_verified b c :
  _sent_meta c = false → check meta_slots b = Ok tt →
  _check_meta b c = (Ok tt, set_sent_meta true c, []).
Proof. intros H Hc. unfold _check_meta. unfold_m. by rewrite H, Hc. Qed.

Lemma _check_meta_fault_no_log b c e :
  _sent_meta c = false → check meta_slots b = Raise e →
  other_attrs c !! "log" = None →
  _check_meta b c = (Raise (AttributeError "log"), c, []).
Proof.
  intros H Hc Hlog. unfold _check_meta, self_attr. unfold_m.
  rewrite H, Hc. simpl. rewrite (check_raises_Exception _ _ _ Hc). simpl.
  by rewrite Hlog.
Qed.

Lemma _check_meta_fault_logged b c e v :
  _sent_meta c = false → check meta_slots b = Raise e →
  other_attrs c !! "log" = Some v →
  _check_meta b c =
    (Ok tt, c, [EvLog WARNING "failed to set device meta (%s)" [LExn e]]).
Proof.
  intros H Hc Hlog. unfold _check_meta, self_attr. unfold_m.
  rewrite H, Hc. simpl. rewrite (check_raises_Exception _ _ _ Hc). simpl.
  by rewrite Hlog.
Qed.

(** A fault leaves the flag as it was, with or without a logger. *)
Lemma _check_meta_fault_final b c e :
  check meta_slots b = Raise e → final (_check_meta b c) = c.
Proof.
  intros Hc. destruct (_sent_meta c) eqn:H.
  - by rewrite _check_meta_already_sent.
  - destruct (other_attrs c !! "log") as [v|] eqn:Hlog.
    + by erewrite _check_meta_fault_logged.
    + by erewrite _check_meta_fault_no_log.
Qed.

(** ** Which operations write the client *)

Ltac run_cases :=
  repeat (intros;
    match goal with
    | |- preserves _ (match ?x with _ => _ end) => destruct x
    | |- emits_only _ (match ?x with _ => _ end) => destruct x
    | |- preserves _ (modify _) => apply preserves_modify; by intros
    | |- emits_only _ (emit _) => apply emits_only_emit; done
    | |- emits_only _ (log_debug _ _) => apply emits_only_emit; done
    | |- emits_only _ (log_error _ _) => apply emits_only_emit; done
    | |- emits_only _ (log_warning _ _) => apply emits_only_emit; done
    | |- emits_only _ (log_exception _ _) => apply emits_only_emit; done
    | |- preserves _ (log_debug _ _) => apply preserves_emit
    | |- preserves _ (log_error _ _) => apply preserves_emit
    | |- preserves _ (log_warning _ _) => apply preserves_emit
    | |- preserves _ (log_exception _ _) => apply preserves_emit
    | |- _ => first
        [ apply preserves_bind | apply preserves_try_except_else
        | apply preserves_try_except | apply preserves_try_finally
        | apply preserves_with_batch | apply preserves_for_each
        | apply emits_only_bind | apply emits_only_try_except_else
        | apply emits_only_try_except | apply emits_only_try_finally
        | apply emits_only_for_each
        | solve [auto with run] ]
    end).

Lemma sent_meta_timer_blind v : timer_blind (λ c, _sent_meta c = v).
Proof. by intros t c. Qed.

Lemma self_attr_preserves P name : preserves P (self_attr name).
Proof. unfold self_attr. run_cases. Qed.

Lemma disk_poll_preserves P env : timer_blind P → preserves P (disk_poll env).
Proof.
  intros HP. unfold disk_poll. run_cases.
  apply preserves_modify. intros s. apply HP.
Qed.

Lemma _sync_meta_preserves P env b : preserves P (_sync_meta env b).
Proof. unfold _sync_meta, getitem. run_cases. Qed.

Lemma _sync_preserves P env : preserves P (_sync env).
Proof.
  intros c Hc. destruct (_sync_run env c) as (r & evs & -> & _). done.
Qed.

Lemma sync_preserves P env : preserves P (sync env).
Proof. intros c Hc. destruct (sync_run env c) as (evs & -> & _). done. Qed.

Lemma poll_preserves P env : timer_blind P → preserves P (poll env).
Proof.
  intros HP. unfold poll.
  apply preserves_bind; [apply preserves_emit | intros _].
  apply preserves_bind; [by apply disk_poll_preserves | intros _].
  apply sync_preserves.
Qed.

Lemma close_preserves P : preserves P close.
Proof. unfold close. run_cases. Qed.

Lemma run_forever_with_preserves {E} P (periodic : E → M client unit) first ticks :
  (∀ env, preserves P (periodic env)) →
  preserves P (run_forever_with periodic first ticks).
Proof.
  intros Hp. unfold run_forever_with, poll_loop.
  apply preserves_try_finally.
  - apply preserves_try_except.
    + apply preserves_bind; [apply Hp | intros _].
      by apply preserves_for_each.
    + intros e. destruct e; run_cases.
  - apply preserves_bind; [apply preserves_emit | intros _].
    apply preserves_bind; [apply close_preserves | intros _].
    apply preserves_emit.
Qed.

Lemma set_m2m_identity_preserves P tr identity :
  preserves P (set_m2m_identity tr identity).
Proof.
  unfold set_m2m_identity. run_cases; apply self_attr_preserves.
Qed.

Lemma _check_meta_keeps_sent b :
  preserves (λ c, _sent_meta c = true) (_check_meta b).
Proof. intros c Hc. by rewrite _check_meta_already_sent. Qed.

(** Every operation but [_check_meta] leaves the flag as it found it. *)
Lemma op_keeps_flag (o : operation T) v :
  (∀ b, o ≠ OpCheckMeta b) →
  preserves (λ c, _sent_meta c = v) (run_op o).
Proof.
  pose proof (sent_meta_timer_blind v) as Hblind.
  intros Hne. destruct o; simpl.
  - by apply disk_poll_preserves.
  - apply preserves_bind; [apply _sync_meta_preserves | auto with run].
  - by destruct (Hne batch).
  - apply _sync_preserves.
  - apply sync_preserves.
  - by apply poll_preserves.
  - apply close_preserves.
  - apply run_forever_with_preserves. intros env. by apply poll_preserves.
  - apply preserves_bind; [apply set_m2m_identity_preserves | auto with run].
Qed.

(** ** Construction *)

Lemma Client_built path url (env : init_env (T:=T)) c :
  (Client path url env).1 = Ok c →
  next_disk_poll_time c = init_time env ∧ _sent_meta c = false ∧
  other_attrs c = ∅.
Proof.
  unfold Client, _init. unfold_m. simpl.
  destruct (settings_read env) as [conf|e]; simpl; [|done].
  destruct (device_serial conf) as [ser|e]; simpl; [|done].
  destruct (device_auth conf) as [auth|e]; simpl; [|done].
  destruct (m2m_init env) as [[]|e]; simpl; [|done].
  destruct (port_forward_init env) as [[]|e]; simpl; [|done].
  by intros [= <-].
Qed.

(** ** The claims on the sync cycle and the metadata flag *)

(** C1, as the code has it: a sync cycle abandons its batch when the metadata
    was already sent in an earlier cycle and when collecting the metadata
    fails.  In both cases the batch holds the authenticate call alone, no
    request goes out on scope exit, and the cycle returns normally with the
    client unchanged. *)
Theorem cycle_abandons_when_nothing_queued (env : sync_env (T:=T)) c :
  _sent_meta c = true ∨ (∃ e, get_meta env = Raise e) →
  ∃ b evs,
    _sync_scope env new_batch c = (Ok b, c, evs) ∧
    abandoned b = true ∧
    calls b = [cycle_authenticate_call env c] ∧
    outcome (_sync env c) = Ok tt ∧
    final (_sync env c) = c ∧
    requests (events (_sync env c)) = [].
Proof.
  intros Hcase.
  assert (∃ evs, _sync_scope env new_batch c =
            (Ok {| calls := [cycle_authenticate_call env c]; abandoned := true;
                   sent := false; results := ∅ |}, c, evs) ∧
            requests evs = []) as (evs & Hscope & Hreq).
  { destruct (_sent_meta c) eqn:Hflag.
    - eexists. split; [by apply _sync_scope_already_sent | done].
    - destruct Hcase as [? | [e He]]; [done|].
      eexists. split; [by apply _sync_scope_collect_fails | done]. }
  eexists _, evs. split; [exact Hscope|].
  rewrite (_sync_abandoned env c _ evs Hscope eq_refl eq_refl).
  unfold outcome, final, events. simpl. repeat split.
  observe. by rewrite Hreq.
Qed.

(** C3: the metadata-sent flag goes from false to true only through a
    verification in which the batch was sent and all four metadata slots hold
    a value; it stays false when the batch was not sent or a slot holds a
    fault, and when the cycle's metadata collection fails; no operation other
    than that verification writes it; and once true it stays true under every
    operation. *)
Theorem sent_meta_transitions :
  (∀ b c, _sent_meta c = false →
     _sent_meta (final (_check_meta b c)) = true ↔ verified b = true) ∧
  (∀ b c, _sent_meta c = false → sent b = false →
     _sent_meta (final (_check_meta b c)) = false) ∧
  (∀ b c name f, _sent_meta c = false → name ∈ meta_slots →
     results b !! name = Some (SlotFault f) →
     _sent_meta (final (_check_meta b c)) = false) ∧
  (∀ (env : sync_env (T:=T)) c e, _sent_meta c = false →
     get_meta env = Raise e → _sent_meta (final (sync env c)) = false) ∧
  (∀ (o : operation T) c, _sent_meta c = false →
     _sent_meta (final (run_op o c)) = true →
     ∃ b, o = OpCheckMeta b ∧ verified b = true) ∧
  (∀ (o : operation T) c, _sent_meta c = true →
     _sent_meta (final (run_op o c)) = true).
Proof.
  assert (Hiff : ∀ b c, _sent_meta c = false →
            _sent_meta (final (_check_meta b c)) = true ↔ verified b = true).
  { intros b c Hflag. rewrite <- check_verified.
    destruct (check_outcome meta_slots b) as [Hok | [e He]].
    - by rewrite (_check_meta_verified b c Hflag Hok).
    - rewrite (_check_meta_fault_final b c e He), Hflag, He. split; done. }
  assert (Hstay : ∀ b c, _sent_meta c = false → verified b = false →
            _sent_meta (final (_check_meta b c)) = false).
  { intros b c Hflag Hv.
    destruct (_sent_meta (final (_check_meta b c))) eqn:Hafter; [|done].
    apply Hiff in Hafter; [congruence | done]. }
  split; [exact Hiff|].
  split.
  { intros b c Hflag Hsent. apply Hstay; [done|].
    unfold verified. by rewrite Hsent. }
  split.
  { intros b c name f Hflag Hin Hslot. apply Hstay; [done|].
    unfold verified, meta_slots in *. apply andb_false_iff. right.
    rewrite !elem_of_cons, elem_of_nil in Hin.
    destruct Hin as [-> | [-> | [-> | [-> | []]]]];
      unfold slot_ok; simpl; rewrite Hslot; simpl;
      by rewrite ?andb_false_r. }
  split.
  { intros env c e Hflag _. by apply (sync_preserves (λ c, _sent_meta c = false)). }
  split.
  { intros o c Hflag Hafter.
    destruct o as [| |b| | | | | |];
      try (rewrite (op_keeps_flag _ false) in Hafter; [done | done | done]).
    exists b. split; [done|]. by apply (Hiff b c). }
  intros o c Hflag.
  destruct o as [| |b| | | | | |];
    try (by apply (op_keeps_flag _ true)).
  by apply _check_meta_keeps_sent.
Qed.

(** C4: a disk poll issues a disk-usage report exactly when the current time
    has reached the stored next-due time; it then sets the next-due time to
    the current time plus the configured interval; a poll that is not due
    changes nothing; and the constructor sets the next-due time to the time of
    construction. *)
Theorem disk_poll_schedule :
  (∀ (env : disk_env (T:=T)) c,
     issues_disk_report (events (disk_poll env c)) = true
     ↔ t_geb (disk_now env) (next_disk_poll_time c) = true) ∧
  (∀ (env : disk_env (T:=T)) c,
     t_geb (disk_now env) (next_disk_poll_time c) = true →
     next_disk_poll_time (final (disk_poll env c))
     = t_add (disk_now env) (t_of_Z (disk_poll_rate_seconds c))) ∧
  (∀ (env : disk_env (T:=T)) c,
     t_geb (disk_now env) (next_disk_poll_time c) = false →
     disk_poll env c = (Ok tt, c, [])) ∧
  (∀ path url (env : init_env (T:=T)) c,
     (Client path url env).1 = Ok c →
     next_disk_poll_time c = init_time env).
Proof.
  split; [|split; [|split]].
  - intros env c.
    destruct (t_geb (disk_now env) (next_disk_poll_time c)) eqn:Hdue.
    + by rewrite (disk_poll_due env c Hdue).
    + by rewrite (disk_poll_not_due env c Hdue).
  - intros env c Hdue. by rewrite (disk_poll_due env c Hdue).
  - intros env c Hdue. by apply disk_poll_not_due.
  - intros path url env c Hc. by apply (Client_built path url env c).
Qed.

(** ** The batches of a poll *)

Lemma _sync_scope_no_disk_report (env : sync_env (T:=T)) c b c' evs :
  _sync_scope env new_batch c = (Ok b, c', evs) →
  has_disk_report (calls b) = false.
Proof.
  unfold _sync_scope, _sync_meta, getitem. unfold_m. simpl.
  destruct (_sent_meta c); simpl; [by intros [= <- _ _]|].
  destruct (get_meta env) as [meta|e]; simpl; [|by intros [= <- _ _]].
  destruct (meta !! "agent_version"); simpl; [|done].
  destruct (meta !! "machine_type"); simpl; [|done].
  destruct (meta !! "os_version"); simpl; [|done].
  destruct (meta !! "uname"); simpl; [|done].
  by intros [= <- _ _].
Qed.

Lemma poll_not_due (env : poll_env (T:=T)) c :
  t_geb (disk_now (poll_disk env)) (next_disk_poll_time c) = false →
  ∃ evs, poll env c = (Ok tt, c, evs) ∧ batches_opened evs = 1%nat ∧
    requests evs = [].
Proof.
  intros Hdue. unfold poll. unfold_m. cbv beta iota.
  rewrite (disk_poll_not_due _ c Hdue).
  destruct (sync_run (poll_sync env) c) as (evs & -> & Hreq & Hopen & _).
  eexists. split; [reflexivity|]. observe. by rewrite Hreq, Hopen.
Qed.

Lemma poll_due (env : poll_env (T:=T)) c :
  t_geb (disk_now (poll_disk env)) (next_disk_poll_time c) = true →
  ∃ r c' evs, poll env c = (r, c', evs) ∧
    requests evs = [disk_calls (poll_disk env) c] ∧
    batches_opened evs =
      match disk_transport (poll_disk env) (disk_calls (poll_disk env) c) with
      | Replied _ => 2%nat
      | SendRaises _ => 1%nat
      end.
Proof.
  intros Hdue. unfold poll. unfold_m. cbv beta iota.
  rewrite (disk_poll_due _ c Hdue).
  destruct (disk_transport _ _) as [e|res].
  - eexists _, _, _. split; [reflexivity|]. by observe.
  - match goal with |- context [sync ?env ?c'] =>
      destruct (sync_run env c') as (evs & -> & Hreq & Hopen & _) end.
    eexists _, _, _. split; [reflexivity|]. observe. by rewrite Hreq, Hopen.
Qed.

(** C5, as the code has it: a poll opens one batch in its sync step and, when
    the disk poll is due, a separate batch in [disk_poll] before it.  The
    disk-usage report is queued with an authenticate call of its own in that
    separate batch, which goes out as the first request of the poll; the batch
    of the sync cycle never holds it.  A poll that is not due opens exactly
    one batch; a poll that is due opens two, or stops after the first when the
    dispatch of the disk batch raises. *)
Theorem poll_batches (env : poll_env (T:=T)) c :
  let due := t_geb (disk_now (poll_disk env)) (next_disk_poll_time c) in
  let disk_batch := disk_calls (poll_disk env) c in
  let evs := events (poll env c) in
  (due = false → batches_opened evs = 1%nat ∧ issues_disk_report evs = false) ∧
  (due = true →
     batches_opened evs =
       match disk_transport (poll_disk env) disk_batch with
       | Replied _ => 2%nat
       | SendRaises _ => 1%nat
       end
     ∧ ∃ rest, requests evs = disk_batch :: rest) ∧
  (∀ c1 b c2 evs', _sync_scope (poll_sync env) new_batch c1 = (Ok b, c2, evs') →
     has_disk_report (calls b) = false).
Proof.
  simpl. split; [|split].
  - intros Hdue. destruct (poll_not_due env c Hdue) as (evs & -> & Hopen & Hreq).
    unfold issues_disk_report, events. simpl. by rewrite Hreq.
  - intros Hdue.
    destruct (poll_due env c Hdue) as (r & c' & evs & -> & Hreq & Hopen).
    unfold events. simpl. split; [done|]. rewrite Hreq. by eexists.
  - intros c1 b c2 evs'. apply _sync_scope_no_disk_report.
Qed.

(** ** Failure isolation *)

Lemma sync_with_catches (body : M (client (T:=T)) unit) c e c' evs :
  body c = (Raise e, c', evs) →
  is_Exception e = true →
  sync_with body c = (Ok tt, c', evs ++ [EvLog ERROR "sync failed %s" [LExn e]]).
Proof.
  intros Hbody He. unfold sync_with. unfold_m. by rewrite Hbody, He.
Qed.

(** C6: whatever ordinary exception the body of a sync cycle raises, [sync]
    catches it, logs it at error severity and returns normally, keeping the
    state and the events the body left. *)
Theorem sync_catches_exceptions (body : M (client (T:=T)) unit) c e c' evs :
  body c = (Raise e, c', evs) →
  is_Exception e = true →
  sync_with body c = (Ok tt, c', evs ++ [EvLog ERROR "sync failed %s" [LExn e]]).
Proof. intros Hbody He. by apply sync_with_catches. Qed.

(** With the cycle body of the source, [sync] returns normally on every
    input. *)
Lemma sync_returns (env : sync_env (T:=T)) c : outcome (sync env c) = Ok tt.
Proof. by destruct (sync_run env c) as (evs & -> & _). Qed.

(** ** The run loop *)

Lemma no_close_count evs : Forall not_close evs → close_calls evs = 0%nat.
Proof.
  induction 1 as [|ev evs Hev _ IH]; [done|].
  observe. unfold not_close in Hev. by rewrite Hev, IH.
Qed.

Lemma self_attr_never_closes name :
  emits_only not_close (self_attr (T:=T) name).
Proof. unfold self_attr. run_cases. Qed.

Lemma disk_poll_never_closes (env : disk_env (T:=T)) :
  emits_only not_close (disk_poll env).
Proof.
  unfold disk_poll, with_batch, batch_exit. run_cases.
Qed.

Lemma sync_never_closes (env : sync_env (T:=T)) :
  emits_only not_close (sync env).
Proof.
  intros c. destruct (sync_run env c) as (evs & Hrun & _ & _ & Hclose).
  rewrite Hrun. unfold events. simpl.
  unfold close_calls, count_events in Hclose.
  apply Forall_forall. intros ev Hin. unfold not_close.
  destruct (is_close ev) eqn:Hev; [|done].
  assert (ev ∈ List.filter is_close evs) as Hmem.
  { apply list_elem_of_In, List.filter_In. by rewrite <- list_elem_of_In. }
  destruct (List.filter is_close evs); [by apply elem_of_nil in Hmem | done].
Qed.

(** The periodic operation of the source never runs the close hook. *)
Lemma poll_never_closes (env : poll_env (T:=T)) :
  emits_only not_close (poll env).
Proof.
  unfold poll.
  apply emits_only_bind; [by apply emits_only_emit | intros _].
  apply emits_only_bind; [apply disk_poll_never_closes | intros _].
  apply sync_never_closes.
Qed.

Lemma run_forever_with_run {E} (periodic : E → M (client (T:=T)) unit)
    (first : E) (ticks : list E) c :
  (∀ env, emits_only not_close (periodic env)) →
  let body := (periodic first ;; poll_loop periodic ticks) c in
  let run := run_forever_with periodic first ticks c in
  close_calls (events run) = 1%nat ∧
  (∀ e, outcome body = Raise e → e = SystemExit ∨ e = KeyboardInterrupt →
        outcome run = Ok tt).
Proof.
  intros Hp body run.
  assert (Forall not_close (events body)) as Hbody.
  { apply emits_only_bind; [apply Hp | intros _].
    unfold poll_loop. by apply emits_only_for_each. }
  apply no_close_count in Hbody.
  subst run. unfold run_forever_with, close. unfold_m. fold body.
  destruct body as [[r c1] ev1]. simpl in *.
  destruct r as [[]|e]; [|destruct e]; simpl;
    (split; [observe; by rewrite Hbody | intros e' [= <-]; intros [? | ?]; done]).
Qed.

(** C7: when the periodic operation raises [SystemExit] or
    [KeyboardInterrupt], in the first call or in the loop, [run_forever]
    returns normally; and however the loop ends (stop event, exit request,
    interrupt, or an error that propagates) the close hook runs exactly once.
    The periodic operation is any operation that is not itself the close
    hook. *)
Theorem run_forever_closes_once {E} (periodic : E → M (client (T:=T)) unit)
    (first : E) (ticks : list E) c :
  (∀ env, emits_only not_close (periodic env)) →
  let body := (periodic first ;; poll_loop periodic ticks) c in
  let run := run_forever_with periodic first ticks c in
  close_calls (events run) = 1%nat ∧
  (∀ e, outcome body = Raise e → e = SystemExit ∨ e = KeyboardInterrupt →
        outcome run = Ok tt).
Proof. apply run_forever_with_run. Qed.

(** The same with the [poll] of the source as the periodic operation. *)
Lemma run_forever_poll_closes_once (first : poll_env (T:=T)) ticks c :
  close_calls (events (run_forever first ticks c)) = 1%nat ∧
  (∀ e, outcome ((poll first ;; poll_loop poll ticks) c) = Raise e →
        e = SystemExit ∨ e = KeyboardInterrupt →
        outcome (run_forever first ticks c) = Ok tt).
Proof. apply run_forever_with_run, poll_never_closes. Qed.

(** ** The identity announcement *)

Ltac identity_cases :=
  repeat split; auto; intros;
  repeat match goal with
         | H : _ ∨ _ |- _ => destruct H
         | H : _ ∧ _ |- _ => destruct H
         | H : ∃ _, _ |- _ => destruct H
         end;
  try discriminate;
  repeat match goal with
         | H : Some _ = Some _ |- _ => injection H as H; try discriminate
         | H : SlotFault _ = SlotFault _ |- _ => injection H as H; try discriminate
         | H : RemoteFault _ _ _ = RemoteFault _ _ _ |- _ => injection H as -> -> ->
         | H : SendRaises _ = SendRaises _ |- _ => injection H as H; try discriminate
         end;
  subst; try done;
  try (apply list_elem_of_In; simpl; tauto).

(** C9: with an auth token configured, [set_m2m_identity] always returns, the
    identity or [None], sends one request and leaves the client as it was; a
    remote fault on either result slot gives [None] and an error record with
    the method, code and message of the fault; an unreachable server gives
    [None] with debug records only; when both slots are acknowledged the
    identity argument itself is returned. *)
Theorem set_m2m_identity_outcomes (tr : transport) (identity : option string)
    c tok :
  auth_token c = Some tok →
  let resp := tr (identity_calls identity c) in
  let run := set_m2m_identity tr identity c in
  (outcome run = Ok identity ∨ outcome run = Ok None) ∧
  final run = c ∧
  requests (events run) = [identity_calls identity c] ∧
  (∀ m code msg, remote_fault_on_a_slot resp m code msg →
     outcome run = Ok None ∧
     EvLog ERROR "unable to associate m2m identity (%s=%s, %s)"
       [LVal (VStr m); LVal (VInt code); LVal (VStr msg)] ∈ events run) ∧
  (∀ msg, server_unreachable resp msg →
     outcome run = Ok None ∧
     forallb is_debug (log_levels (events run)) = true) ∧
  (both_acknowledged resp → outcome run = Ok identity).
Proof.
  intros Htok resp run. subst resp run.
  unfold remote_fault_on_a_slot, server_unreachable, both_acknowledged, slot_of.
  unfold set_m2m_identity, with_batch, batch_exit, get_result,
    identity_calls, authenticate_call.
  unfold_m. rewrite Htok. simpl.
  match goal with |- context [tr ?cs] => destruct (tr cs) as [e|res] end.
  - destruct e; simpl; identity_cases.
  - simpl.
    destruct (res !! "authenticate_result") as [[v|[m code msg|msg]]|]; simpl;
      [destruct (res !! "associate_result") as [[w|[m code msg|msg]]|]; simpl
      | .. ];
      identity_cases.
Qed.

(** ** The logger of the verification path *)

Lemma op_keeps_attrs (o : operation T) :
  preserves (λ c, other_attrs c = ∅) (run_op o).
Proof.
  assert (timer_blind (λ c : client (T:=T), other_attrs c = ∅)) as Hblind
    by (by intros t c).
  destruct o; simpl.
  - by apply disk_poll_preserves.
  - apply preserves_bind; [apply _sync_meta_preserves | auto with run].
  - unfold _check_meta, self_attr. run_cases.
  - apply _sync_preserves.
  - apply sync_preserves.
  - by apply poll_preserves.
  - apply close_preserves.
  - apply run_forever_with_preserves. intros env. by apply poll_preserves.
  - apply preserves_bind; [apply set_m2m_identity_preserves | auto with run].
Qed.

(** C10: when the check of the four slots raises and the flag is false,
    [_check_meta] reaches [self.log], which no constructed client has, and
    raises [AttributeError] instead of logging the warning and returning; the
    handler of [sync] then catches it as an ordinary exception. *)
Theorem check_meta_fault_raises_attribute_error (b : Batch) c e :
  _sent_meta c = false →
  other_attrs c !! "log" = None →
  check meta_slots b = Raise e →
  _check_meta b c = (Raise (AttributeError "log"), c, []) ∧
  sync_with (_check_meta b) c
  = (Ok tt, c, [EvLog ERROR "sync failed %s" [LExn (AttributeError "log")]]) ∧
  (∀ path url (env : init_env (T:=T)) c0,
     (Client path url env).1 = Ok c0 → other_attrs c0 !! "log" = None).
Proof.
  intros Hflag Hlog Hcheck.
  pose proof (_check_meta_fault_no_log b c e Hflag Hcheck Hlog) as Hrun.
  split; [exact Hrun|]. split.
  - by rewrite (sync_with_catches (_check_meta b) c _ c [] Hrun).
  - intros path url env c0 Hc0.
    destruct (Client_built path url env c0 Hc0) as (_ & _ & ->). done.
Qed.

(** ** The announcement without an auth token *)

(** Without an auth token the first thing evaluated is [self.disable_sync];
    on a client that has no such attribute the call raises there. *)
Lemma set_m2m_identity_no_token tr identity c :
  auth_token c = None → other_attrs c !! "disable_sync" = None →
  set_m2m_identity tr identity c
  = (Raise (AttributeError "disable_sync"), c, []).
Proof.
  intros Htok Hattr. unfold set_m2m_identity, self_attr. unfold_m.
  by rewrite Htok, Hattr.
Qed.

(** On an instance that does have the two attributes the same path returns
    [None] and opens no batch. *)
Lemma set_m2m_identity_no_token_with_attrs tr identity c v lg :
  auth_token c = None → other_attrs c !! "disable_sync" = Some v →
  other_attrs c !! "log" = Some lg →
  let run := set_m2m_identity tr identity c in
  outcome run = Ok None ∧ final run = c ∧
  batches_opened (events run) = 0%nat ∧ requests (events run) = [].
Proof.
  intros Htok Hattr Hlog. unfold set_m2m_identity, self_attr. unfold_m.
  rewrite Htok, Hattr. simpl. destruct (truthy v); simpl; [done|].
  by rewrite Hlog.
Qed.

End Properties.

(** * The claims on concrete runs *)

Import Examples.

Lemma Client_builds_c0 :
  (Client "/etc/dataplicity.conf" None init0).1 = Ok c0.
Proof. reflexivity. Qed.

(** [test_client_unsuccesful_init]: the error of the settings is logged and
    raised again. *)
Lemma Client_fails_without_serial :
  Client "/etc/dataplicity.conf" None init_noserial
  = (Raise (IOError "non-existing-file"),
     [EvLog INFO "dataplicity %s" [LVal (VStr "0.4.12")];
      EvLog INFO "uname=%s" [LVal (VStr "Linux raspberrypi")];
      EvLog ERROR "failed to initialize client"
        [LExn (IOError "non-existing-file")]]).
Proof. reflexivity. Qed.

(** C1 as stated fails: in a cycle that finds the metadata already sent (the
    client as a successful verification leaves it), the batch is abandoned and
    no request goes out, although the server would acknowledge every call. *)
Lemma already_sent_cycle_abandons_batch :
  final (_check_meta acked_batch c0) = c_sent ∧
  _sent_meta c_sent = true ∧
  (∃ b, outcome (_sync_scope cycle_ok new_batch c_sent) = Ok b ∧
        abandoned b = true) ∧
  requests (events (sync cycle_ok c_sent)) = [].
Proof.
  split; [reflexivity|]. split; [reflexivity|]. split; [|reflexivity].
  eexists. split; reflexivity.
Qed.

Lemma cycle_abandons_when_nothing_queued_witness :
  _sent_meta c_sent = true ∧
  ∃ b evs,
    _sync_scope cycle_ok new_batch c_sent = (Ok b, c_sent, evs) ∧
    abandoned b = true ∧
    calls b = [cycle_authenticate_call cycle_ok c_sent] ∧
    outcome (_sync cycle_ok c_sent) = Ok tt ∧
    final (_sync cycle_ok c_sent) = c_sent ∧
    requests (events (_sync cycle_ok c_sent)) = [].
Proof.
  split; [reflexivity|].
  apply (cycle_abandons_when_nothing_queued cycle_ok c_sent).
  left. reflexivity.
Defined.

(** C2 fails on the code: three cycles of a fresh client against a server
    that acknowledges every call.  Each cycle queues the authenticate call and
    the four metadata calls and abandons the batch, so no request is ever
    sent and the flag is still false afterwards. *)
Theorem acknowledged_metadata_is_never_sent :
  let run := for_each sync [cycle_ok; cycle_ok; cycle_ok] c0 in
  outcome run = Ok tt ∧
  batches_opened (events run) = 3%nat ∧
  requests (events run) = [] ∧
  _sent_meta (final run) = false ∧
  ∃ b, outcome (_sync_scope cycle_ok new_batch (final run)) = Ok b ∧
       map call_id (calls b) = "authenticate_result" :: meta_slots ∧
       abandoned b = true.
Proof.
  simpl. repeat split; try reflexivity.
  eexists. repeat split; reflexivity.
Qed.

Lemma sent_meta_transitions_witness :
  _sent_meta c0 = false ∧
  verified acked_batch = true ∧
  _sent_meta (final (_check_meta acked_batch c0)) = true ∧
  _sent_meta (final (_check_meta faulted_batch c0)) = false ∧
  _sent_meta (final (run_op (OpPoll (poll_at 5000)) c_sent)) = true.
Proof.
  destruct (sent_meta_transitions (T:=Z))
    as (Hiff & _ & Hfault & _ & _ & Hkeep).
  split; [reflexivity|]. split; [reflexivity|]. split; [|split].
  - apply (Hiff acked_batch c0); reflexivity.
  - apply (Hfault faulted_batch c0 "set_uname_result"
             (RemoteFault "device.set_uname" 32000 "rejected")).
    + reflexivity.
    + unfold meta_slots. do 3 apply list_elem_of_further.
      apply list_elem_of_here.
    + reflexivity.
  - apply (Hkeep (OpPoll (poll_at 5000)) c_sent). reflexivity.
Defined.

Lemma disk_poll_schedule_witness :
  t_geb 5000 (next_disk_poll_time c0) = true ∧
  issues_disk_report (events (disk_poll (disk0 5000) c0)) = true ∧
  next_disk_poll_time (final (disk_poll (disk0 5000) c0)) = 5000 + 3600 ∧
  t_geb 999 (next_disk_poll_time c0) = false ∧
  disk_poll (disk0 999) c0 = (Ok tt, c0, []) ∧
  next_disk_poll_time c0 = init_time init0.
Proof.
  destruct (disk_poll_schedule (T:=Z)) as (Hiff & Hnext & Hskip & Hinit).
  split; [reflexivity|]. split; [|split; [|split; [|split]]].
  - apply (Hiff (disk0 5000) c0). reflexivity.
  - apply (Hnext (disk0 5000) c0). reflexivity.
  - reflexivity.
  - apply (Hskip (disk0 999) c0). reflexivity.
  - apply (Hinit "/etc/dataplicity.conf" None init0 c0). reflexivity.
Defined.

(** C5 as stated fails: a poll whose disk poll is due opens two batches, and
    the disk-usage report goes out in a request of its own, with an
    authenticate call that carries no sync id. *)
Lemma poll_due_opens_two_batches :
  batches_opened (events (poll (poll_at 5000) c0)) = 2%nat ∧
  requests (events (poll (poll_at 5000) c0)) = [disk_calls (disk0 5000) c0].
Proof. split; reflexivity. Qed.

Lemma poll_batches_witness :
  batches_opened (events (poll (poll_at 5000) c0)) = 2%nat ∧
  (∃ rest, requests (events (poll (poll_at 5000) c0))
           = disk_calls (disk0 5000) c0 :: rest) ∧
  batches_opened (events (poll (poll_at 999) c0)) = 1%nat ∧
  issues_disk_report (events (poll (poll_at 999) c0)) = false.
Proof.
  destruct (poll_batches (poll_at 5000) c0) as (_ & Hdue & _).
  destruct (poll_batches (poll_at 999) c0) as (Hnot & _ & _).
  destruct (Hdue eq_refl) as [Hopen Hreq].
  destruct (Hnot eq_refl) as [Hone Hnone].
  split; [exact Hopen|]. split; [exact Hreq|]. split; [exact Hone | exact Hnone].
Defined.

Lemma sync_catches_exceptions_witness :
  _sync cycle_badmeta c0
  = (Raise (KeyError "uname"), c0,
     [EvBatchOpen; EvLog DEBUG "sync complete %0.2fs" [LVal (VStr "1")]]) ∧
  sync cycle_badmeta c0
  = (Ok tt, c0,
     [EvBatchOpen; EvLog DEBUG "sync complete %0.2fs" [LVal (VStr "1")]]
     ++ [EvLog ERROR "sync failed %s" [LExn (KeyError "uname")]]).
Proof.
  split; [reflexivity|].
  apply (sync_catches_exceptions (_sync cycle_badmeta) c0 (KeyError "uname"));
    reflexivity.
Defined.

Lemma run_forever_closes_once_witness :
  (close_calls (events (run_forever_with poll_which_raises tt [] c0)) = 1%nat ∧
   outcome (run_forever_with poll_which_raises tt [] c0) = Ok tt) ∧
  (close_calls
     (events (run_forever_with poll_which_raises_keyboardint tt [tt] c0))
   = 1%nat ∧
   outcome (run_forever_with poll_which_raises_keyboardint tt [tt] c0) = Ok tt) ∧
  (outcome (poll poll_interrupted (final (poll (poll_at 999) c0)))
   = Raise KeyboardInterrupt ∧
   close_calls (events (run_forever (poll_at 999) [poll_interrupted] c0))
   = 1%nat ∧
   outcome (run_forever (poll_at 999) [poll_interrupted] c0) = Ok tt).
Proof.
  split; [|split].
  - destruct (run_forever_closes_once poll_which_raises tt [] c0) as [Hc Hr].
    + intros env s. apply Forall_nil_2.
    + split; [exact Hc|]. apply (Hr SystemExit); [reflexivity | by left].
  - destruct (run_forever_closes_once poll_which_raises_keyboardint tt [tt] c0)
      as [Hc Hr].
    + intros env s. apply Forall_nil_2.
    + split; [exact Hc|].
      apply (Hr KeyboardInterrupt); [reflexivity | by right].
  - destruct (run_forever_closes_once poll (poll_at 999) [poll_interrupted] c0)
      as [Hc Hr].
    + apply poll_never_closes.
    + split; [reflexivity|]. split; [exact Hc|].
      apply (Hr KeyboardInterrupt); [reflexivity | by right].
Defined.

(** C8 fails on the code: the client built without an auth token raises
    [AttributeError] at [self.disable_sync] instead of returning [None]; no
    batch is opened. *)
Theorem set_m2m_identity_without_token_raises :
  (Client "/etc/dataplicity.conf" None init_noauth).1 = Ok c_noauth ∧
  auth_token c_noauth = None ∧
  set_m2m_identity all_ok (Some "device-1") c_noauth
  = (Raise (AttributeError "disable_sync"), c_noauth, []).
Proof. repeat split. Qed.

Lemma set_m2m_identity_outcomes_witness :
  auth_token c0 = Some "test-auth" ∧
  outcome (set_m2m_identity all_ok (Some "device-1") c0) = Ok (Some "device-1") ∧
  (outcome (set_m2m_identity rejects_associate (Some "device-1") c0) = Ok None ∧
   EvLog ERROR "unable to associate m2m identity (%s=%s, %s)"
     [LVal (VStr "m2m.associate"); LVal (VInt 32001);
      LVal (VStr "no such identity")]
   ∈ events (set_m2m_identity rejects_associate (Some "device-1") c0)) ∧
  (outcome (set_m2m_identity unreachable (Some "device-1") c0) = Ok None ∧
   forallb is_debug
     (log_levels (events (set_m2m_identity unreachable (Some "device-1") c0)))
   = true).
Proof.
  split; [reflexivity|]. split; [|split].
  - destruct (set_m2m_identity_outcomes all_ok (Some "device-1") c0 "test-auth"
                eq_refl) as (_ & _ & _ & _ & _ & Hok).
    apply Hok. exists VNone, VNone. split; reflexivity.
  - destruct (set_m2m_identity_outcomes rejects_associate (Some "device-1") c0
                "test-auth" eq_refl) as (_ & _ & _ & Hfault & _ & _).
    apply Hfault. right. split; [exists VNone|]; reflexivity.
  - destruct (set_m2m_identity_outcomes unreachable (Some "device-1") c0
                "test-auth" eq_refl) as (_ & _ & _ & _ & Hdown & _).
    apply (Hdown "connection refused"). left. reflexivity.
Defined.

Lemma check_meta_fault_raises_attribute_error_witness :
  _sent_meta c0 = false ∧
  check meta_slots faulted_batch
  = Raise (JSONRPCError "device.set_uname" 32000 "rejected") ∧
  _check_meta faulted_batch c0 = (Raise (AttributeError "log"), c0, []).
Proof.
  split; [reflexivity|]. split; [reflexivity|].
  apply (check_meta_fault_raises_attribute_error faulted_batch c0
           (JSONRPCError "device.set_uname" 32000 "rejected"));
    reflexivity.
Defined.

(** * More of the engine *)

(** ** Loops and counts *)

Lemma count_zero p evs :
  Forall (λ ev, p ev = false) evs → count_events p evs = 0%nat.
Proof.
  induction 1 as [|ev evs Hev _ IH]; [done|].
  rewrite count_events_cons. by rewrite Hev, IH.
Qed.

(** Walks a computation and leaves the events it emits to [auto]. *)
Ltac emit_cases :=
  repeat (intros;
    match goal with
    | |- emits_only _ (match ?x with _ => _ end) => destruct x
    | |- emits_only _ (emit _) => apply emits_only_emit; auto
    | |- emits_only _ (log_debug _ _) => apply emits_only_emit; auto
    | |- emits_only _ (log_error _ _) => apply emits_only_emit; auto
    | |- emits_only _ (log_exception _ _) => apply emits_only_emit; auto
    | |- emits_only _ (log_warning _ _) => apply emits_only_emit; auto
    | |- _ => first
        [ apply emits_only_bind | apply emits_only_try_except_else
        | solve [auto with run] ]
    end).

(** Once an iteration has raised, the rest of the list is not run. *)
Lemma for_each_raise_app {S A} (f : A → M S unit) xs ys s e :
  outcome (for_each f xs s) = Raise e →
  for_each f (xs ++ ys) s = for_each f xs s.
Proof.
  revert s. induction xs as [|x xs IH]; intros s; simpl; [done|].
  unfold bind, outcome in *.
  destruct (f x s) as [[[[]|e'] s1] ev1]; simpl; [|done].
  intros Hrest. rewrite IH; [done|].
  by destruct (for_each f xs s1) as [[r s2] ev2].
Qed.

Section Further.
Context {T : Type} {TS : Timestamp T}.
Implicit Types (c : client (T:=T)) (P : client (T:=T) → Prop).

(** ** Construction *)


(** ** The disk poll over time *)

Lemma disk_poll_reports (env : disk_env (T:=T)) c :
  issues_disk_report (events (disk_poll env c))
  = t_geb (disk_now env) (next_disk_poll_time c).
Proof.
  destruct (t_geb (disk_now env) (next_disk_poll_time c)) eqn:Hdue.
  - by rewrite (disk_poll_due env c Hdue).
  - by rewrite (disk_poll_not_due env c Hdue).
Qed.

Lemma poll_final (env : poll_env (T:=T)) c :
  final (poll env c) = final (disk_poll (poll_disk env) c).
Proof.
  unfold poll. unfold_m. cbv beta iota.
  destruct (disk_poll (poll_disk env) c) as [[[[]|e] c1] ev1]; simpl; [|done].
  by destruct (sync_run (poll_sync env) c1) as (evs & -> & _).
Qed.

Lemma poll_reports (env : poll_env (T:=T)) c :
  issues_disk_report (events (poll env c))
  = t_geb (disk_now (poll_disk env)) (next_disk_poll_time c).
Proof.
  destruct (t_geb (disk_now (poll_disk env)) (next_disk_poll_time c)) eqn:Hdue.
  - destruct (poll_due env c Hdue) as (r & c' & evs & -> & Hreq & _).
    unfold issues_disk_report, events. simpl. by rewrite Hreq.
  - destruct (poll_not_due env c Hdue) as (evs & -> & _ & Hreq).
    unfold issues_disk_report, events. simpl. by rewrite Hreq.
Qed.

(** X2: the first poll of a constructed client reports the disk usage as soon
    as its clock has reached the time of construction, and arms the next
    report one interval later; the interval is the configured [disk_poll]
    value, one hour when there is none. *)
Theorem first_poll_reports_disk_usage path url (ienv : init_env (T:=T)) c
    (env : poll_env (T:=T)) :
  (Client path url ienv).1 = Ok c →
  t_geb (disk_now (poll_disk env)) (init_time ienv) = true →
  issues_disk_report (events (poll env c)) = true ∧
  next_disk_poll_time (final (poll env c))
  = t_add (disk_now (poll_disk env)) (t_of_Z (disk_poll_rate_seconds c)) ∧
  ∃ conf, settings_read ienv = Ok conf ∧
          disk_poll_rate_seconds c = default 3600 (daemon_disk_poll conf).
Proof.
  intros Hc Hdue.
  assert (next_disk_poll_time c = init_time ienv) as Hnext
    by (by apply (Client_built path url ienv c)).
  rewrite <- Hnext in Hdue. split; [|split].
  - by rewrite poll_reports.
  - by rewrite poll_final, (disk_poll_due _ c Hdue).
  - revert Hc. unfold Client, _init. unfold_m. simpl.
    destruct (settings_read ienv) as [conf|e]; simpl; [|done].
    destruct (device_serial conf) as [ser|e]; simpl; [|done].
    destruct (device_auth conf) as [auth|e]; simpl; [|done].
    destruct (m2m_init ienv) as [[]|e]; simpl; [|done].
    destruct (port_forward_init ienv) as [[]|e]; simpl; [|done].
    intros [= <-]. by exists conf.
Qed.

Lemma disk_poll_keeps_rate (env : disk_env (T:=T)) c :
  disk_poll_rate_seconds (final (disk_poll env c)) = disk_poll_rate_seconds c.
Proof.
  apply (disk_poll_preserves
           (λ c', disk_poll_rate_seconds c' = disk_poll_rate_seconds c) env);
    [by intros t c' | done].
Qed.

(** X3: over any sequence of disk polls on one client, whatever the clock
    does, the first report comes no earlier than the stored due time and
    every later report no earlier than the report before it plus the
    interval: a late poll never leads to a burst of reports. *)
Theorem disk_reports_are_spaced (envs : list (disk_env (T:=T))) c :
  due_chain (disk_poll_rate_seconds c) (next_disk_poll_time c)
    (report_times envs c).
Proof.
  revert c. induction envs as [|env envs IH]; intros c; simpl; [done|].
  rewrite disk_poll_reports.
  specialize (IH (final (disk_poll env c))).
  rewrite disk_poll_keeps_rate in IH.
  destruct (t_geb (disk_now env) (next_disk_poll_time c)) eqn:Hdue; simpl.
  - split; [done|]. rewrite (disk_poll_due env c Hdue) in IH |- *. exact IH.
  - rewrite (disk_poll_not_due env c Hdue) in IH |- *. exact IH.
Qed.

(** X4: the timer is armed before the report is sent.  When the dispatch of
    a due report raises, the exception leaves [disk_poll], the next-due time
    has moved one interval on all the same, and a poll that comes before that
    time sends nothing: the lost report is not retried. *)
Theorem failed_disk_report_is_not_retried (env env' : disk_env (T:=T)) c e :
  t_geb (disk_now env) (next_disk_poll_time c) = true →
  disk_transport env (disk_calls env c) = SendRaises e →
  t_geb (disk_now env')
    (t_add (disk_now env) (t_of_Z (disk_poll_rate_seconds c))) = false →
  outcome (disk_poll env c) = Raise e ∧
  next_disk_poll_time (final (disk_poll env c))
  = t_add (disk_now env) (t_of_Z (disk_poll_rate_seconds c)) ∧
  events (disk_poll env' (final (disk_poll env c))) = [].
Proof.
  intros Hdue Hsend Hearly. rewrite (disk_poll_due env c Hdue), Hsend.
  unfold outcome, final. simpl. split; [done|]. split; [done|].
  by rewrite disk_poll_not_due.
Qed.

(** ** What leaves [poll] *)

(** X5: [disk_poll] runs outside the handler of [sync].  When the disk poll
    is due and the dispatch of its batch raises, whatever the exception, it
    leaves [poll]; the sync cycle of that poll does not run: no second batch
    is opened and no completion record is written. *)
Theorem poll_does_not_contain_disk_failure (env : poll_env (T:=T)) c e :
  t_geb (disk_now (poll_disk env)) (next_disk_poll_time c) = true →
  disk_transport (poll_disk env) (disk_calls (poll_disk env) c)
  = SendRaises e →
  outcome (poll env c) = Raise e ∧
  batches_opened (events (poll env c)) = 1%nat ∧
  count_events is_sync_complete (events (poll env c)) = 0%nat.
Proof.
  intros Hdue Hsend. unfold poll. unfold_m. cbv beta iota.
  by rewrite (disk_poll_due _ c Hdue), Hsend.
Qed.

(** ** The run loop beyond exit requests *)

(** X6: an exception of the periodic operation that is neither an exit
    request nor an interrupt ends the loop and leaves [run_forever], after the
    teardown: the events of the run are those of the loop followed by the
    closing record, the close hook and the goodbye record. *)
Theorem run_forever_reraises_errors {E} (periodic : E → M (client (T:=T)) unit)
    (first : E) (ticks : list E) c e :
  outcome ((periodic first ;; poll_loop periodic ticks) c) = Raise e →
  e ≠ SystemExit → e ≠ KeyboardInterrupt →
  let body := (periodic first ;; poll_loop periodic ticks) c in
  let run := run_forever_with periodic first ticks c in
  outcome run = Raise e ∧ final run = final body ∧
  events run
  = events body
    ++ [EvLog DEBUG "closing" []; EvClose; EvLog DEBUG "goodbye" []].
Proof.
  intros Hbody Hexit Hint body run. subst run.
  unfold run_forever_with, close. unfold_m. fold body. fold body in Hbody.
  destruct body as [[r c1] ev1]. simpl in *. subst r.
  destruct e; simpl; try done; by rewrite app_nil_r.
Qed.

(** X7: the loop ends at the first call of the periodic operation that
    raises: whatever ticks would have followed, the run is the same. *)
Theorem run_forever_stops_at_first_raise {E}
    (periodic : E → M (client (T:=T)) unit) (first : E) (ticks later : list E)
    c e :
  outcome ((periodic first ;; poll_loop periodic ticks) c) = Raise e →
  run_forever_with periodic first (ticks ++ later) c
  = run_forever_with periodic first ticks c.
Proof.
  intros Hbody. unfold run_forever_with, poll_loop in *.
  assert ((periodic first ;; for_each periodic (ticks ++ later)) c
          = (periodic first ;; for_each periodic ticks) c) as Heq.
  { apply (for_each_raise_app periodic (first :: ticks) later c e Hbody). }
  unfold try_finally, try_except. by rewrite Heq.
Qed.

Lemma disk_poll_no_poll_record (env : disk_env (T:=T)) :
  emits_only (λ ev, is_poll_record ev = false) (disk_poll env).
Proof. unfold disk_poll, with_batch, batch_exit. emit_cases. Qed.

Lemma _sync_body_emits (Q : event → Prop) (env : sync_env (T:=T)) :
  Q EvBatchOpen → (∀ cs, Q (EvRequest cs)) →
  (∀ e, Q (EvLog ERROR "error getting meta" [LExn e])) →
  (∀ e, Q (EvLog WARNING "failed to set device meta (%s)" [LExn e])) →
  emits_only Q (batch <- with_batch (sync_transport env) (_sync_scope env) ;;
                _sync_verify batch).
Proof.
  intros Hopen Hreq Hmeta Hwarn.
  unfold with_batch, batch_exit, _sync_scope, _sync_meta, _sync_verify,
    _check_meta, self_attr, getitem.
  emit_cases.
Qed.

Lemma sync_no_poll_record (env : sync_env (T:=T)) :
  emits_only (λ ev, is_poll_record ev = false) (sync env).
Proof.
  unfold sync, sync_with, _sync.
  apply emits_only_try_except.
  - apply emits_only_try_finally; [by apply _sync_body_emits|].
    by apply emits_only_emit.
  - intros e. destruct (is_Exception e); [by apply emits_only_emit|].
    apply emits_only_raise.
Qed.

(** Every poll writes its record once, at its start. *)
Lemma poll_starts_once (env : poll_env (T:=T)) c :
  polls_started (events (poll env c)) = 1%nat.
Proof.
  pose proof (disk_poll_no_poll_record (poll_disk env) c) as Hdisk.
  unfold poll. unfold_m. cbv beta iota.
  destruct (disk_poll (poll_disk env) c) as [[[[]|e] c1] ev1]; simpl in *.
  - pose proof (sync_no_poll_record (poll_sync env) c1) as Hsync.
    unfold events in Hsync.
    destruct (sync (poll_sync env) c1) as [[r c2] ev2]; simpl in *.
    unfold polls_started. rewrite count_events_cons, count_events_app.
    by rewrite (count_zero _ _ Hdisk), (count_zero _ _ Hsync).
  - unfold polls_started. rewrite count_events_cons.
    by rewrite (count_zero _ _ Hdisk).
Qed.

Lemma poll_loop_starts (ticks : list (poll_env (T:=T))) c :
  outcome (for_each poll ticks c) = Ok tt →
  polls_started (events (for_each poll ticks c)) = length ticks.
Proof.
  revert c. induction ticks as [|env ticks IH]; intros c; simpl; [done|].
  pose proof (poll_starts_once env c) as Hone.
  unfold bind, outcome, events in *.
  destruct (poll env c) as [[[[]|e] c1] ev1]; simpl in *; [|done].
  specialize (IH c1).
  destruct (for_each poll ticks c1) as [[r c2] ev2]; simpl in *.
  intros ->. unfold polls_started in *.
  by rewrite count_events_app, Hone, IH.
Qed.

(** X8: when no poll raises, [run_forever] has polled once at the start and
    once for every time the wait on the exit event timed out, and returns
    normally when the event is set. *)
Theorem run_forever_polls_every_tick (first : poll_env (T:=T))
    (ticks : list (poll_env (T:=T))) c :
  outcome ((poll first ;; poll_loop poll ticks) c) = Ok tt →
  outcome (run_forever first ticks c) = Ok tt ∧
  polls_started (events (run_forever first ticks c)) = S (length ticks).
Proof.
  intros Hbody.
  pose proof (poll_loop_starts (first :: ticks) c Hbody) as Hcount.
  unfold run_forever, run_forever_with, close, poll_loop in *. simpl in Hcount.
  remember ((poll first ;; for_each poll ticks) c) as body eqn:Hb.
  unfold try_finally, try_except. rewrite <- Hb.
  destruct body as [[r c1] ev1].
  unfold outcome, events in *. simpl in *. subst r. unfold_m. simpl.
  split; [done|].
  unfold polls_started in *. rewrite count_events_app, Hcount. simpl.
  unfold count_events. simpl. lia.
Qed.

(** ** The end of a cycle *)

(** X9: whatever a sync cycle did, and whether it returns or raises, the last
    thing [_sync] logs is its completion record with the elapsed time, and it
    logs it once. *)
Theorem sync_cycle_logs_completion (env : sync_env (T:=T)) c :
  let done :=
    EvLog DEBUG "sync complete %0.2fs"
      [LVal (VStr (t_show (t_sub (sync_end env) (sync_start env))))] in
  last (events (_sync env c)) = Some done ∧
  count_events is_sync_complete (events (_sync env c)) = 1%nat.
Proof.
  simpl.
  pose proof (_sync_body_emits (λ ev, is_sync_complete ev = false) env) as Hbody.
  specialize (Hbody eq_refl (λ _, eq_refl) (λ _, eq_refl) (λ _, eq_refl) c).
  unfold _sync, try_finally, log_debug, emit, events in *.
  destruct ((batch <- with_batch (sync_transport env) (_sync_scope env) ;;
             _sync_verify batch) c) as [[r c1] ev1].
  simpl in *. split; [by rewrite last_snoc|].
  rewrite count_events_app, (count_zero _ _ Hbody). done.
Qed.

(** ** The metadata a cycle reads *)

(** X10: with the flag false and the metadata collected, [_sync_meta] reads
    the four keys in a fixed order.  If one is missing, the first missing one
    raises [KeyError]; in a cycle nothing is sent then and [sync] logs the
    error after the completion record.  If none is missing, exactly four calls
    are queued, in the order of the four result slots, with the values of the
    dictionary, the machine type replaced by ['other'] when it is empty or
    [None]. *)
Theorem sync_meta_reads_keys_in_order (env : sync_env (T:=T)) c meta :
  _sent_meta c = false →
  get_meta env = Ok meta →
  match first_missing meta with
  | Some k =>
      outcome (_sync_meta env new_batch c) = Raise (KeyError k) ∧
      sync env c
      = (Ok tt, c,
         [EvBatchOpen;
          EvLog DEBUG "sync complete %0.2fs"
            [LVal (VStr (t_show (t_sub (sync_end env) (sync_start env))))];
          EvLog ERROR "sync failed %s" [LExn (KeyError k)]])
  | None =>
      ∃ agent machine os uname b,
        meta !! "agent_version" = Some agent ∧
        meta !! "machine_type" = Some machine ∧
        meta !! "os_version" = Some os ∧
        meta !! "uname" = Some uname ∧
        outcome (_sync_meta env new_batch c) = Ok (VNone, b) ∧
        calls b
        = [{| call_id := "set_agent_version_result";
              method := "device.set_agent_version";
              params := [("agent_version", agent)] |};
           {| call_id := "set_machine_type_result";
              method := "device.set_machine_type";
              params := [("machine_type",
                          if truthy machine then machine else VStr "other")] |};
           {| call_id := "set_os_version_result";
              method := "device.set_os_version";
              params := [("os_version", os)] |};
           {| call_id := "set_uname_result"; method := "device.set_uname";
              params := [("uname", uname)] |}]
  end.
Proof.
  intros Hflag Hmeta.
  unfold first_missing, meta_keys, sync, sync_with, _sync, with_batch,
    batch_exit, _sync_scope, _sync_verify, _sync_meta, getitem, py_or.
  unfold_m. simpl. rewrite Hflag, Hmeta. simpl.
  destruct (meta !! "agent_version") as [agent|]; simpl; [|done].
  destruct (meta !! "machine_type") as [machine|]; simpl; [|done].
  destruct (meta !! "os_version") as [os|]; simpl; [|done].
  destruct (meta !! "uname") as [uname|]; simpl; [|done].
  by eexists _, _, _, _, _.
Qed.

(** ** What follows the batch scope *)

(** X11: the verification that follows the scope sets the flag exactly when
    the batch was sent, the authenticate slot holds a value and the four
    metadata slots hold values.  A fault in the authenticate slot is raised
    before the metadata is looked at, so acknowledged metadata is not marked
    as sent when the authentication failed. *)
Theorem sync_verify_needs_authentication (b : Batch) c :
  _sent_meta c = false →
  (_sent_meta (final (_sync_verify b c)) = true
   ↔ (∃ v, get_result "authenticate_result" b = Ok v) ∧ verified b = true) ∧
  (∀ f, sent b = true →
        results b !! "authenticate_result" = Some (SlotFault f) →
        _sync_verify b c = (Raise (fault_exn f), c, [])).
Proof.
  intros Hflag. split.
  - unfold _sync_verify, get_result. destruct (sent b) eqn:Hsent; simpl.
    + unfold_m.
      destruct (results b !! "authenticate_result") as [[v|f]|]; simpl.
      * destruct (check_outcome meta_slots b) as [Hok | [e He]].
        -- rewrite (_check_meta_verified b c Hflag Hok). simpl.
           apply check_verified in Hok. split; [eauto | done].
        -- pose proof (_check_meta_fault_final b c e He) as Hfin.
           assert (verified b = true → False) as Hno.
           { intros Hv. apply check_verified in Hv. congruence. }
           unfold final in Hfin.
           destruct (_check_meta b c) as [[r c1] ev1]. simpl in *. subst c1.
           split; [congruence|]. by intros [_ Hv%Hno].
      * split; [congruence | by intros [[v [=]] _]].
      * split; [congruence | by intros [[v [=]] _]].
    + unfold_m. simpl. split; [congruence | by intros [[v [=]] _]].
  - intros f Hsent Hslot. unfold _sync_verify, get_result. unfold_m.
    by rewrite Hsent, Hslot.
Qed.

(** ** What no operation changes *)

Lemma _check_meta_preserves P b :
  (∀ c, P c → P (set_sent_meta true c)) → preserves P (_check_meta b).
Proof.
  intros HP. unfold _check_meta, self_attr.
  apply preserves_bind; [apply preserves_gets | intros sent_meta].
  destruct sent_meta; [apply preserves_ret|].
  apply preserves_try_except_else; [apply preserves_lift | | ].
  - intros e. destruct (is_Exception e); [|apply preserves_raise].
    apply preserves_bind.
    + apply preserves_bind; [apply preserves_gets | intros attrs].
      destruct (attrs !! "log"); [apply preserves_ret | apply preserves_raise].
    + intros _. apply preserves_emit.
  - intros _. by apply preserves_modify.
Qed.

Lemma op_preserves P (o : operation T) :
  timer_blind P → (∀ c, P c → P (set_sent_meta true c)) →
  preserves P (run_op o).
Proof.
  intros Hblind Hflag. destruct o; simpl.
  - by apply disk_poll_preserves.
  - apply preserves_bind; [apply _sync_meta_preserves | auto with run].
  - by apply _check_meta_preserves.
  - apply _sync_preserves.
  - apply sync_preserves.
  - by apply poll_preserves.
  - apply close_preserves.
  - apply run_forever_with_preserves. intros env. by apply poll_preserves.
  - apply preserves_bind; [apply set_m2m_identity_preserves | auto with run].
Qed.

(** X12: no operation of a constructed client changes what the constructor
    resolved: the configuration path, the server URL, the serial, the auth
    token, the two poll intervals and the other attributes of the instance
    are after every operation what they were before.  Only the metadata flag
    and the disk-poll timer move. *)
Theorem operations_keep_configuration (o : operation T) c :
  let c' := final (run_op o c) in
  conf_path c' = conf_path c ∧ rpc_url c' = rpc_url c ∧
  serial c' = serial c ∧ auth_token c' = auth_token c ∧
  poll_rate_seconds c' = poll_rate_seconds c ∧
  disk_poll_rate_seconds c' = disk_poll_rate_seconds c ∧
  other_attrs c' = other_attrs c.
Proof.
  simpl.
  apply (op_preserves
           (λ c', conf_path c' = conf_path c ∧ rpc_url c' = rpc_url c ∧
                  serial c' = serial c ∧ auth_token c' = auth_token c ∧
                  poll_rate_seconds c' = poll_rate_seconds c ∧
                  disk_poll_rate_seconds c' = disk_poll_rate_seconds c ∧
                  other_attrs c' = other_attrs c) o).
  - by intros t c0.
  - by intros c0.
  - done.
Qed.

(** ** What every request starts with *)

Lemma no_requests evs : Forall (λ ev, requests [ev] = []) evs → requests evs = [].
Proof.
  induction 1 as [|ev evs Hev _ IH]; [done|].
  change (ev :: evs) with ([ev] ++ evs). by rewrite requests_app, Hev, IH.
Qed.

Lemma _sync_meta_requests (env : sync_env (T:=T)) b c :
  requests (events (_sync_meta env b c)) = [].
Proof.
  apply no_requests. revert c. fold (emits_only (S:=client (T:=T))
    (λ ev, requests [ev] = []) (_sync_meta env b)).
  unfold _sync_meta, getitem. emit_cases.
Qed.

Lemma _check_meta_requests b c : requests (events (_check_meta b c)) = [].
Proof.
  apply no_requests. revert c. fold (emits_only (S:=client (T:=T))
    (λ ev, requests [ev] = []) (_check_meta b)).
  unfold _check_meta, self_attr. emit_cases.
Qed.

Lemma poll_requests (env : poll_env (T:=T)) c cs :
  cs ∈ requests (events (poll env c)) → cs = disk_calls (poll_disk env) c.
Proof.
  destruct (t_geb (disk_now (poll_disk env)) (next_disk_poll_time c)) eqn:Hdue.
  - destruct (poll_due env c Hdue) as (r & c' & evs & -> & Hreq & _).
    unfold events. simpl. rewrite Hreq. by intros ->%list_elem_of_singleton.
  - destruct (poll_not_due env c Hdue) as (evs & -> & _ & Hreq).
    unfold events. simpl. rewrite Hreq. by intros ?%elem_of_nil.
Qed.

Lemma poll_keeps_credentials (env : poll_env (T:=T)) c :
  authenticate_call (final (poll env c)) = authenticate_call c.
Proof.
  apply (poll_preserves (λ c', authenticate_call c' = authenticate_call c) env);
    [by intros t c' | done].
Qed.

Lemma poll_loop_requests (ticks : list (poll_env (T:=T))) c cs :
  cs ∈ requests (events (for_each poll ticks c)) →
  head cs = Some (authenticate_call c).
Proof.
  revert c. induction ticks as [|env ticks IH]; intros c; simpl.
  { by intros ?%elem_of_nil. }
  pose proof (poll_requests env c cs) as Hfirst.
  pose proof (poll_keeps_credentials env c) as Hcred.
  unfold bind, events, final in *.
  destruct (poll env c) as [[[[]|e] c1] ev1]; simpl in *.
  - specialize (IH c1).
    destruct (for_each poll ticks c1) as [[r c2] ev2]; simpl in *.
    rewrite requests_app, elem_of_app. intros [Hin | Hin].
    + by rewrite (Hfirst Hin).
    + rewrite <- Hcred. by apply IH.
  - intros Hin. by rewrite (Hfirst Hin).
Qed.

Lemma run_forever_with_requests {E} (periodic : E → M (client (T:=T)) unit)
    first ticks c :
  requests (events (run_forever_with periodic first ticks c))
  = requests (events ((periodic first ;; poll_loop periodic ticks) c)).
Proof.
  unfold run_forever_with, close, try_finally, try_except.
  destruct ((periodic first ;; poll_loop periodic ticks) c) as [[r c1] ev1].
  unfold_m. destruct r as [[]|e]; [|destruct e]; simpl;
    rewrite ?requests_app; simpl; by rewrite ?app_nil_r.
Qed.

Lemma set_m2m_identity_requests tr identity c cs :
  cs ∈ requests (events (set_m2m_identity tr identity c)) →
  cs = identity_calls identity c.
Proof.
  unfold set_m2m_identity, with_batch, batch_exit, get_result, self_attr,
    identity_calls, authenticate_call.
  unfold_m. destruct (auth_token c) as [tok|] eqn:Htok; simpl.
  - match goal with |- context [tr ?x] => destruct (tr x) as [e|res] end.
    + destruct e; simpl; by intros ->%list_elem_of_singleton.
    + simpl.
      destruct (res !! "authenticate_result") as [[v|[m code msg|msg]]|]; simpl;
        [destruct (res !! "associate_result") as [[w|[m code msg|msg]]|]; simpl
        | .. ];
        by intros ->%list_elem_of_singleton.
  - destruct (other_attrs c !! "disable_sync") as [v|]; simpl;
      [|by intros ?%elem_of_nil].
    destruct (truthy v); simpl; [by intros ?%elem_of_nil|].
    destruct (other_attrs c !! "log"); simpl; by intros ?%elem_of_nil.
Qed.

(** X13: every request that any operation of the client sends starts with
    the [device.check_auth] call under the result name [authenticate_result],
    carrying the device class, the serial and the auth token of the client:
    nothing is ever sent ahead of the authentication. *)
Theorem every_request_starts_with_authenticate (o : operation T) c cs :
  cs ∈ requests (events (run_op o c)) →
  head cs = Some (authenticate_call c).
Proof.
  destruct o as [env|env b|b|env|env|env| |first ticks|tr identity]; simpl.
  - destruct (t_geb (disk_now env) (next_disk_poll_time c)) eqn:Hdue.
    + rewrite (disk_poll_due env c Hdue). unfold events. simpl.
      by intros ->%list_elem_of_singleton.
    + rewrite (disk_poll_not_due env c Hdue). by intros ?%elem_of_nil.
  - pose proof (_sync_meta_requests env b c) as Hnone.
    unfold bind, ret, events in *.
    destruct (_sync_meta env b c) as [[[a|e] c1] ev1]; simpl in *;
      rewrite ?app_nil_r, Hnone; by intros ?%elem_of_nil.
  - rewrite _check_meta_requests. by intros ?%elem_of_nil.
  - destruct (_sync_run env c) as (r & evs & -> & Hreq & _).
    unfold events. simpl. rewrite Hreq. by intros ?%elem_of_nil.
  - destruct (sync_run env c) as (evs & -> & Hreq & _).
    unfold events. simpl. rewrite Hreq. by intros ?%elem_of_nil.
  - by intros ->%poll_requests.
  - by intros ?%elem_of_nil.
  - unfold run_forever. rewrite run_forever_with_requests.
    apply (poll_loop_requests (first :: ticks)).
  - pose proof (set_m2m_identity_requests tr identity c cs) as Hid.
    unfold bind, ret, events in *.
    destruct (set_m2m_identity tr identity c) as [[[a|e] c1] ev1]; simpl in *;
      rewrite ?app_nil_r; by intros ->%Hid.
Qed.

(** ** Clearing the identity *)

(** X14: announcing no identity sends the empty string as identity, the same
    request as announcing the empty string, and returns [None] whatever the
    server answers: the return value of a cleared identity does not tell
    whether the server received it. *)
Theorem clearing_identity_returns_none (tr : transport) c tok :
  auth_token c = Some tok →
  outcome (set_m2m_identity tr None c) = Ok None ∧
  requests (events (set_m2m_identity tr None c)) = [identity_calls None c] ∧
  identity_calls None c = identity_calls (Some EmptyString) c ∧
  (∃ auth_call, identity_calls None c
     = [auth_call;
        {| call_id := "associate_result"; method := "m2m.associate";
           params := [("identity", VStr EmptyString)] |}]).
Proof.
  intros Htok.
  unfold set_m2m_identity, with_batch, batch_exit, get_result,
    identity_calls, authenticate_call.
  unfold_m. rewrite Htok. simpl.
  match goal with |- context [tr ?x] => destruct (tr x) as [e|res] end.
  - destruct e; simpl; eauto 10.
  - simpl.
    destruct (res !! "authenticate_result") as [[v|[m code msg|msg]]|]; simpl;
      [destruct (res !! "associate_result") as [[w|[m code msg|msg]]|]; simpl
      | .. ];
      eauto 10.
Qed.

End Further.

(** ** The sync id *)

Lemma string_of_list_ascii_length l :
  String.length (String.string_of_list_ascii l) = length l.
Proof. induction l as [|a l IH]; simpl; [done | by rewrite IH]. Qed.

Lemma random_choice_lower draw :
  ∃ a, random_choice sync_id_alphabet draw = Some a ∧ is_lower a = true.
Proof.
  assert (Forall (λ a, is_lower a = true) sync_id_alphabet) as Hall
    by (unfold sync_id_alphabet; simpl; repeat constructor).
  unfold random_choice.
  destruct (lookup_lt_is_Some_2 sync_id_alphabet
              (draw mod length sync_id_alphabet)%nat) as [a Ha].
  { apply Nat.mod_upper_bound. done. }
  exists a. split; [done|]. exact (Forall_lookup_1 _ _ _ _ Hall Ha).
Qed.

(** X15: whatever the generator draws, [make_sync_id] returns a string, of
    twelve characters, each a lowercase ASCII letter. *)
Theorem make_sync_id_shape (draws : nat → nat) :
  ∃ s, make_sync_id draws = Some s ∧
       String.length s = 12%nat ∧
       Forall (λ a, is_lower a = true) (String.list_ascii_of_string s).
Proof.
  unfold make_sync_id.
  destruct (mapM (λ i, random_choice sync_id_alphabet (draws i)) (seq 0 12))
    as [l|] eqn:Hl.
  - exists (String.string_of_list_ascii l). split; [done|]. split.
    + rewrite string_of_list_ascii_length.
      by rewrite <- (length_mapM _ _ _ Hl).
    + rewrite String.list_ascii_of_string_of_list_ascii.
      apply mapM_Some_1 in Hl.
      induction Hl as [|i a idx l Ha _ IH]; constructor; [|done].
      destruct (random_choice_lower (draws i)) as (a' & Ha' & Hlow). congruence.
  - apply mapM_None_1, Exists_exists in Hl. destruct Hl as (i & _ & Hi).
    destruct (random_choice_lower (draws i)) as (a & Ha & _). congruence.
Qed.

Import Scenarios.

Lemma make_sync_id_counting :
  make_sync_id counting_draws = Some "ahovcjqxelsz".
Proof. reflexivity. Qed.

(** ** Concrete runs of the further properties *)


Lemma first_poll_reports_disk_usage_witness :
  issues_disk_report (events (poll (poll_at 1000) c0)) = true ∧
  next_disk_poll_time (final (poll (poll_at 1000) c0)) = 1000 + 3600.
Proof.
  destruct (first_poll_reports_disk_usage "/etc/dataplicity.conf" None init0 c0
              (poll_at 1000) Client_builds_c0 eq_refl) as (Hreport & Hnext & _).
  split; [exact Hreport | exact Hnext].
Defined.

(** A clock that stalls and jumps: polls at 1000, 2000, 4600, 4700, 4600 and
    9000 report at 1000, 4600 and 9000 only. *)
Lemma disk_reports_are_spaced_witness :
  report_times (disk0 <$> [1000; 2000; 4600; 4700; 4600; 9000]) c0
  = [1000; 4600; 9000] ∧
  due_chain 3600 1000 [1000; 4600; 9000].
Proof.
  split; [reflexivity|].
  exact (disk_reports_are_spaced
           (disk0 <$> [1000; 2000; 4600; 4700; 4600; 9000]) c0).
Defined.

Lemma failed_disk_report_is_not_retried_witness :
  outcome (disk_poll (poll_disk (poll_unreachable 5000)) c0)
  = Raise (ServerUnreachableError "connection refused") ∧
  next_disk_poll_time (final (disk_poll (poll_disk (poll_unreachable 5000)) c0))
  = 5000 + 3600 ∧
  events (disk_poll (disk0 6000)
            (final (disk_poll (poll_disk (poll_unreachable 5000)) c0))) = [].
Proof.
  assert (t_geb (disk_now (poll_disk (poll_unreachable 5000)))
            (next_disk_poll_time c0) = true) as Hdue by reflexivity.
  assert (disk_transport (poll_disk (poll_unreachable 5000))
            (disk_calls (poll_disk (poll_unreachable 5000)) c0)
          = SendRaises (ServerUnreachableError "connection refused")) as Hsend
    by reflexivity.
  assert (t_geb (disk_now (disk0 6000))
            (t_add (disk_now (poll_disk (poll_unreachable 5000)))
               (t_of_Z (disk_poll_rate_seconds c0))) = false) as Hearly
    by reflexivity.
  exact (failed_disk_report_is_not_retried (poll_disk (poll_unreachable 5000))
           (disk0 6000) c0 (ServerUnreachableError "connection refused")
           Hdue Hsend Hearly).
Defined.

Lemma poll_does_not_contain_disk_failure_witness :
  outcome (poll (poll_unreachable 5000) c0)
  = Raise (ServerUnreachableError "connection refused") ∧
  batches_opened (events (poll (poll_unreachable 5000) c0)) = 1%nat ∧
  count_events is_sync_complete (events (poll (poll_unreachable 5000) c0))
  = 0%nat.
Proof.
  apply (poll_does_not_contain_disk_failure (poll_unreachable 5000) c0);
    reflexivity.
Defined.

Lemma run_forever_reraises_errors_witness :
  outcome (run_forever (poll_at 999) [poll_unreachable 5000; poll_at 9000] c0)
  = Raise (ServerUnreachableError "connection refused") ∧
  close_calls
    (events (run_forever (poll_at 999) [poll_unreachable 5000; poll_at 9000] c0))
  = 1%nat.
Proof.
  destruct (run_forever_reraises_errors poll (poll_at 999)
              [poll_unreachable 5000; poll_at 9000] c0
              (ServerUnreachableError "connection refused"))
    as (Hout & _ & Hev); [reflexivity | done | done |].
  split; [exact Hout|].
  unfold run_forever. rewrite Hev. reflexivity.
Defined.

Lemma run_forever_stops_at_first_raise_witness :
  run_forever_with poll (poll_at 999) ([poll_unreachable 5000] ++ [poll_at 9000]) c0
  = run_forever_with poll (poll_at 999) [poll_unreachable 5000] c0.
Proof.
  apply (run_forever_stops_at_first_raise poll (poll_at 999)
           [poll_unreachable 5000] [poll_at 9000] c0
           (ServerUnreachableError "connection refused")).
  reflexivity.
Defined.

Lemma run_forever_polls_every_tick_witness :
  outcome (run_forever (poll_at 999) [poll_at 5000; poll_at 5060] c0) = Ok tt ∧
  polls_started
    (events (run_forever (poll_at 999) [poll_at 5000; poll_at 5060] c0))
  = 3%nat.
Proof.
  apply (run_forever_polls_every_tick (poll_at 999) [poll_at 5000; poll_at 5060]
           c0).
  reflexivity.
Defined.

Lemma sync_meta_reads_keys_in_order_witness :
  first_missing (delete "uname" meta0) = Some "uname" ∧
  outcome (_sync_meta cycle_badmeta new_batch c0) = Raise (KeyError "uname") ∧
  first_missing meta0 = None ∧
  ∃ b, outcome (_sync_meta cycle_ok new_batch c0) = Ok (VNone, b) ∧
       map call_id (calls b) = meta_slots.
Proof.
  pose proof (sync_meta_reads_keys_in_order cycle_badmeta c0
                (delete "uname" meta0) eq_refl eq_refl) as Hbad.
  pose proof (sync_meta_reads_keys_in_order cycle_ok c0 meta0 eq_refl eq_refl)
    as Hok.
  change (first_missing (delete "uname" meta0)) with (Some "uname") in Hbad.
  change (first_missing meta0) with (@None string) in Hok.
  destruct Hbad as [Hraise _].
  destruct Hok as (agent & machine & os & uname & b & _ & _ & _ & _ & Hb & Hcalls).
  split; [reflexivity|]. split; [exact Hraise|]. split; [reflexivity|].
  exists b. split; [exact Hb|]. rewrite Hcalls. reflexivity.
Defined.

Lemma sync_verify_needs_authentication_witness :
  _sent_meta (final (_sync_verify acked_batch c0)) = true ∧
  verified refused_batch = true ∧
  _sync_verify refused_batch c0
  = (Raise (JSONRPCError "device.check_auth" 32003 "bad token"), c0, []).
Proof.
  destruct (sync_verify_needs_authentication acked_batch c0 eq_refl)
    as [Hiff _].
  destruct (sync_verify_needs_authentication refused_batch c0 eq_refl)
    as [_ Hfault].
  split; [|split; [reflexivity|]].
  - apply Hiff. split; [by exists VNone | reflexivity].
  - apply (Hfault (RemoteFault "device.check_auth" 32003 "bad token"));
      reflexivity.
Defined.

Lemma every_request_starts_with_authenticate_witness :
  disk_calls (disk0 5000) c0
  ∈ requests (events (run_op (OpPoll (poll_at 5000)) c0)) ∧
  head (disk_calls (disk0 5000) c0) = Some (authenticate_call c0).
Proof.
  assert (disk_calls (disk0 5000) c0
          ∈ requests (events (run_op (OpPoll (poll_at 5000)) c0))) as Hin
    by apply list_elem_of_here.
  split; [exact Hin|].
  exact (every_request_starts_with_authenticate (OpPoll (poll_at 5000)) c0
           _ Hin).
Defined.

Lemma clearing_identity_returns_none_witness :
  outcome (set_m2m_identity all_ok None c0) = Ok None ∧
  outcome (set_m2m_identity unreachable None c0) = Ok None.
Proof.
  destruct (clearing_identity_returns_none all_ok c0 "test-auth" eq_refl)
    as [Hok _].
  destruct (clearing_identity_returns_none unreachable c0 "test-auth" eq_refl)
    as [Hdown _].
  split; [exact Hok | exact Hdown].
Defined.
